(** * DiffuseVAE: the DDPM diffusion core ([models/diffusion/ddpm.py])

    A shallow embedding of the class [DDPM] and of the helper [extract].
    Python exceptions are values of [PyError]; the object [self], the
    count of decoder evaluations and the random generator are threaded
    explicitly.  Control flow, lengths, shapes, devices, counts and the
    order of the errors are those of the source.

    Every torch float is a real number of the Standard Library ([R]),
    where the source computes in single precision: what is stated below
    of the value of a table or of a tensor is stated of the exact
    computation, which the source approximates.  Facts of [R] that
    rounding can break outright (a strict order between neighbouring
    entries of a table, an entry bounded away from 0 or from 1, a value
    that rests on an exact cancellation) are steps of proofs only: the
    numbered properties do not state them. *)

From Stdlib Require Import Reals Lra Lia ZArith.
From stdpp Require Import base gmap strings pretty list.

Local Open Scope R_scope.

Set Warnings "-clear-no-such-hyp".

(** ** Exceptions *)

Inductive PyError : Type :=
  | AssertionError
  | AttributeError
  | IndexError
  | KeyError
  | RuntimeError.

Inductive Result (A : Type) : Type :=
  | Ok (a : A)
  | Raise (e : PyError).
Arguments Ok {A} a.
Arguments Raise {A} e.

Definition rbind {A B : Type} (r : Result A) (k : A -> Result B) : Result B :=
  match r with
  | Ok a => k a
  | Raise e => Raise e
  end.

Notation "x <-r r ; k" := (rbind r (fun x => k))
  (at level 100, r at next level, right associativity).

Definition passert (b : bool) : Result unit :=
  if b then Ok tt else Raise AssertionError.

(** ** Tensors

    A compute context is a torch device.  A float tensor of rank at least
    one is its device, its trailing dimensions and one flattened row per
    batch element; a [Vec] is a 1-D float tensor (a schedule table, or the
    [b,1,...,1] column that [extract] returns); an [IdxTensor] is a 1-D
    tensor of integers. *)

Inductive Device : Type :=
  | Cpu
  | Cuda (n : nat).

Global Instance Device_eq_dec : EqDecision Device.
Proof. solve_decision. Defined.

Record Vec : Type := mkVec { vdev : Device; vals : list R }.
Record IdxTensor : Type := mkIdx { idev : Device; ivals : list Z }.
Record Tensor : Type :=
  mkTensor { device : Device; trail : list nat; rows : list (list R) }.

Definition shape (x : Tensor) : list nat := length (rows x) :: trail x.

Definition numel_row (x : Tensor) : nat := foldr Nat.mul 1%nat (trail x).

(** Every row holds the product of the trailing dimensions. *)
Definition wf_tensor (x : Tensor) : Prop :=
  Forall (fun r => length r = numel_row x) (rows x).

(** [a.gather(-1, t)]: one entry of [a] per index, on one device, every
    index inside [0, len a). *)
Definition gather_at (a : list R) (i : Z) : option R :=
  if bool_decide (0 <= i)%Z then a !! Z.to_nat i else None.

Definition gather (a : Vec) (t : IdxTensor) : Result Vec :=
  if bool_decide (vdev a = idev t) then
    match mapM (gather_at (vals a)) (ivals t) with
    | Some vs => Ok (mkVec (vdev a) vs)
    | None => Raise RuntimeError
    end
  else Raise RuntimeError.

(** [extract(a, t, x_shape)]: the gathered column, reshaped to
    [b,1,...,1]; the reshape keeps the entries. *)
Definition extract (a : Vec) (t : IdxTensor) (x_shape : list nat) : Result Vec :=
  gather a t.

(** Broadcasting of a [b,1,...,1] column against a tensor of batch size
    [B]: the sizes agree, or one of them is 1. *)
Definition bcast_rows (f : R -> R -> R) (cs : list R) (rs : list (list R))
  : Result (list (list R)) :=
  if bool_decide (length cs = length rs) then
    Ok (zip_with (fun c r => map (f c) r) cs rs)
  else
    match cs, rs with
    | [c], _ => Ok (map (fun r => map (f c) r) rs)
    | _, [r] => Ok (map (fun c => map (f c) r) cs)
    | _, _ => Raise RuntimeError
    end.

(** [c * x] and [x * c] for a column [c]. *)
Definition col_mul (c : Vec) (x : Tensor) : Result Tensor :=
  if bool_decide (vdev c = device x) then
    rs <-r bcast_rows Rmult (vals c) (rows x);
    Ok (mkTensor (device x) (trail x) rs)
  else Raise RuntimeError.

Definition mul_col (x : Tensor) (c : Vec) : Result Tensor :=
  if bool_decide (vdev c = device x) then
    rs <-r bcast_rows (fun k v => v * k) (vals c) (rows x);
    Ok (mkTensor (device x) (trail x) rs)
  else Raise RuntimeError.

(** Elementwise operation of two tensors of one shape on one device (at
    every call site below the two operands have the same shape). *)
Definition tzip (f : R -> R -> R) (x y : Tensor) : Result Tensor :=
  if bool_decide (device x = device y) then
    if bool_decide (shape x = shape y) then
      Ok (mkTensor (device x) (trail x)
            (zip_with (zip_with f) (rows x) (rows y)))
    else Raise RuntimeError
  else Raise RuntimeError.

Definition tadd : Tensor -> Tensor -> Result Tensor := tzip Rplus.
Definition tsub : Tensor -> Tensor -> Result Tensor := tzip Rminus.

(** [x.clamp_(lo, hi)] *)
Definition clamp (lo hi : R) (x : Tensor) : Tensor :=
  mkTensor (device x) (trail x)
    (map (map (fun v => Rmin (Rmax v lo) hi)) (rows x)).

(** ** The precomputed constants *)

(** [torch.linspace(start, end, steps)] *)
Definition linspace (start stop : R) (steps : Z) : Result (list R) :=
  if bool_decide (steps < 0)%Z then Raise RuntimeError
  else if bool_decide (steps = 1)%Z then Ok [start]
  else Ok (map (fun i : nat => start + INR i * ((stop - start) / IZR (steps - 1)))
             (seq 0 (Z.to_nat steps))).

(** [torch.cumprod(l, dim=0)] *)
Fixpoint cumprod_from (acc : R) (l : list R) : list R :=
  match l with
  | [] => []
  | a :: l' => (acc * a) :: cumprod_from (acc * a) l'
  end.

Definition cumprod (l : list R) : list R :=
  match l with
  | [] => []
  | a :: l' => a :: cumprod_from a l'
  end.

(** The attributes that [setup_precomputed_const] assigns; all of them
    live on the device they were built for. *)
Record Consts : Type := mkConsts {
  cdev : Device;
  betas : list R;
  alphas : list R;
  alpha_bar : list R;
  alpha_bar_shifted : list R;
  sqrt_alpha_bar : list R;
  minus_sqrt_alpha_bar : list R;
  sqrt_recip_alphas_cumprod : list R;
  sqrt_recipm1_alphas_cumprod : list R;
  post_variance : list R;
  post_log_variance_clipped : list R;
  p_variance : list R;
  p_log_variance : list R;
  post_coeff_1 : list R;
  post_coeff_2 : list R
}.

(** The object.  The decoder is an opaque callable
    [decoder(x_t, t, low_res=cond)]; [consts] is [None] until
    [setup_precomputed_const] has run to its end.

    In the source a run that raises has already assigned the attributes
    of the lines before the raise ([betas] to [alpha_bar_shifted] for
    [T = 0], [betas] to [post_variance] for [T = 1], and
    [post_log_variance_clipped] as well for an unknown variance type).
    These leftovers are not kept here.  [forward] and [sample] never read
    them: with the flag unset they run the setup again, which raises
    again on the same line.  So the results of the two methods and the
    counters are those of the source, and of the attributes of an object
    after a failing setup nothing is stated below. *)
Record DDPM : Type := mkDDPM {
  decoder : Tensor -> IdxTensor -> option Tensor -> Tensor;
  T : Z;
  beta_1 : R;
  beta_2 : R;
  var_type : string;
  setup_consts : bool;
  consts : option Consts
}.

(** [DDPM.__init__] *)
Definition init (dec : Tensor -> IdxTensor -> option Tensor -> Tensor)
    (b1 b2 : R) (steps : Z) (vt : string) : DDPM :=
  mkDDPM dec steps b1 b2 vt false None.

(** The ["fixedlarge"] / ["fixedsmall"] dictionary lookup. *)
Definition select_variance {A : Type} (large small : A) (vt : string) : Result A :=
  if bool_decide (vt = "fixedlarge"%string) then Ok large
  else if bool_decide (vt = "fixedsmall"%string) then Ok small
  else Raise KeyError.

(** [DDPM.setup_precomputed_const]: the constants for device [dev], with
    the checks and the errors of the source in their order.  The entries
    are exact: division, square root and logarithm are those of [R]. *)
Definition build_consts (m : DDPM) (dev : Device) : Result Consts :=
  bs <-r linspace (beta_1 m) (beta_2 m) (T m);
  let als := map (fun b => 1 - b) bs in
  let ab := cumprod als in
  let abs := 1 :: take (length ab - 1) ab in
  _ <-r passert (bool_decide (Z.of_nat (length abs) = T m));
  let pv := zip_with Rdiv (zip_with Rmult bs (map (fun a => 1 - a) abs))
                     (map (fun a => 1 - a) ab) in
  pv1 <-r match pv !! 1%nat with Some v => Ok v | None => Raise IndexError end;
  let plvc := map ln (pv1 :: drop 1 pv) in
  pv1' <-r match pv !! 1%nat with Some v => Ok v | None => Raise IndexError end;
  let large := (bs, map ln (pv1' :: drop 1 bs)) in
  let small := (pv, plvc) in
  sel <-r select_variance large small (var_type m);
  Ok {| cdev := dev;
        betas := bs;
        alphas := als;
        alpha_bar := ab;
        alpha_bar_shifted := abs;
        sqrt_alpha_bar := map sqrt ab;
        minus_sqrt_alpha_bar := map (fun a => sqrt (1 - a)) ab;
        sqrt_recip_alphas_cumprod := map (fun a => sqrt (1 / a)) ab;
        sqrt_recipm1_alphas_cumprod := map (fun a => sqrt (1 / a - 1)) ab;
        post_variance := pv;
        post_log_variance_clipped := plvc;
        p_variance := fst sel;
        p_log_variance := snd sel;
        post_coeff_1 :=
          zip_with Rdiv (zip_with Rmult bs (map sqrt abs))
                   (map (fun a => 1 - a) ab);
        post_coeff_2 :=
          zip_with Rdiv (zip_with Rmult (map sqrt als) (map (fun a => 1 - a) abs))
                   (map (fun a => 1 - a) ab) |}.

Definition setup_precomputed_const (m : DDPM) (dev : Device) : Result DDPM :=
  c <-r build_consts m dev;
  Ok (mkDDPM (decoder m) (T m) (beta_1 m) (beta_2 m) (var_type m)
             (setup_consts m) (Some c)).

(** ** Methods that only read [self] *)

(** [self.<name>] for one of the tables: an attribute that exists only
    after [setup_precomputed_const]. *)
Definition table (m : DDPM) (f : Consts -> list R) : Result Vec :=
  match consts m with
  | Some c => Ok (mkVec (cdev c) (f c))
  | None => Raise AttributeError
  end.

(** [DDPM._predict_xstart_from_eps] *)
Definition _predict_xstart_from_eps (m : DDPM) (x_t : Tensor) (t : IdxTensor)
    (eps : Tensor) : Result Tensor :=
  _ <-r passert (bool_decide (shape x_t = shape eps));
  a <-r table m sqrt_recip_alphas_cumprod;
  c1 <-r extract a t (shape x_t);
  l <-r col_mul c1 x_t;
  b <-r table m sqrt_recipm1_alphas_cumprod;
  c2 <-r extract b t (shape x_t);
  r <-r col_mul c2 eps;
  tsub l r.

(** [DDPM.compute_noisy_input] *)
Definition compute_noisy_input (m : DDPM) (x_start eps : Tensor) (t : IdxTensor)
  : Result Tensor :=
  _ <-r passert (bool_decide (shape eps = shape x_start));
  a <-r table m sqrt_alpha_bar;
  c1 <-r extract a t (shape x_start);
  l <-r mul_col x_start c1;
  b <-r table m minus_sqrt_alpha_bar;
  c2 <-r extract b t (shape x_start);
  r <-r mul_col eps c2;
  tadd l r.

(** ** Methods with effects

    The state of a run: the object, how often the decoder was evaluated,
    how often [torch.randn_like] was called and how many scalars it has
    taken from the generator.  An exception leaves the counters as they
    are at the point of the raise. *)
Record St : Type := mkSt {
  self : DDPM;
  decoder_calls : nat;
  randn_calls : nat;
  rng_pos : nat
}.

Definition M (A : Type) : Type := St -> Result A * St.

Definition mret {A : Type} (a : A) : M A := fun s => (Ok a, s).

Definition mbind {A B : Type} (c : M A) (k : A -> M B) : M B :=
  fun s =>
    match c s with
    | (Ok a, s') => k a s'
    | (Raise e, s') => (Raise e, s')
    end.

Notation "x <- c ;; k" := (mbind c (fun x => k))
  (at level 100, c at next level, right associativity).

Definition lift {A : Type} (f : DDPM -> Result A) : M A :=
  fun s => (f (self s), s).

Definition get_self : M DDPM := fun s => (Ok (self s), s).

(** [self.decoder(x, t, low_res=cond)] *)
Definition call_decoder (x : Tensor) (t : IdxTensor) (cond : option Tensor)
  : M Tensor :=
  fun s =>
    (Ok (decoder (self s) x t cond),
     mkSt (self s) (S (decoder_calls s)) (randn_calls s) (rng_pos s)).

(** [if not self.setup_consts: self.setup_precomputed_const(dev);
     self.setup_consts = True] *)
Definition ensure_consts (dev : Device) : M unit :=
  fun s =>
    if setup_consts (self s) then (Ok tt, s)
    else
      match setup_precomputed_const (self s) dev with
      | Ok m' =>
          (Ok tt,
           mkSt (mkDDPM (decoder m') (T m') (beta_1 m') (beta_2 m') (var_type m')
                        true (consts m'))
                (decoder_calls s) (randn_calls s) (rng_pos s))
      | Raise e => (Raise e, s)
      end.

(** [torch.full((b,), t, device=dev, dtype=torch.long)] *)
Definition full (b : nat) (t : Z) (dev : Device) : IdxTensor :=
  mkIdx dev (replicate b t).

(** [DDPM.get_posterior_mean_covariance], with [clip_denoised] as the
    caller leaves it ([True]) or sets it. *)
Definition get_posterior_mean_covariance (x_t : Tensor) (t : Z)
    (clip_denoised : bool) (cond : option Tensor) : M (Tensor * Vec * Vec) :=
  let t_ := full (length (rows x_t)) t (device x_t) in
  pred <- call_decoder x_t t_ cond;;
  x_recons <- lift (fun m => _predict_xstart_from_eps m x_t t_ pred);;
  let x_recons := if clip_denoised then clamp (-1) 1 x_recons else x_recons in
  post_mean <- lift (fun m =>
    a <-r table m post_coeff_1;
    c1 <-r extract a t_ (shape x_t);
    l <-r col_mul c1 x_recons;
    b <-r table m post_coeff_2;
    c2 <-r extract b t_ (shape x_t);
    r <-r col_mul c2 x_t;
    tadd l r);;
  post_variance <- lift (fun m =>
    a <-r table m p_variance; extract a t_ (shape x_t));;
  post_log_variance <- lift (fun m =>
    a <-r table m p_log_variance; extract a t_ (shape x_t));;
  mret (post_mean, post_variance, post_log_variance).

(** Product of two columns, of shapes [b,1,...,1] and [b',1,...,1]. *)
Definition vec_mul (u v : Vec) : Result Vec :=
  if bool_decide (vdev u = vdev v) then
    if bool_decide (length (vals u) = length (vals v)) then
      Ok (mkVec (vdev u) (zip_with Rmult (vals u) (vals v)))
    else
      match vals u, vals v with
      | [a], _ => Ok (mkVec (vdev u) (map (Rmult a) (vals v)))
      | _, [b] => Ok (mkVec (vdev u) (map (fun a => a * b) (vals u)))
      | _, _ => Raise RuntimeError
      end
  else Raise RuntimeError.

(** The [checkpoints] argument: a Python list, or a set, of integers. *)
Inductive PyInts : Type :=
  | PyList (l : list Z)
  | PySet (s : gset Z).

(** [checkpoints == []] *)
Definition eq_empty_list (c : PyInts) : bool :=
  match c with
  | PyList [] => true
  | _ => false
  end.

(** [k in checkpoints] *)
Definition py_in (k : Z) (c : PyInts) : bool :=
  match c with
  | PyList l => bool_decide (k ∈ l)
  | PySet s => bool_decide (k ∈ s)
  end.

(** [reversed(range(0, num_steps))] *)
Definition reversed_range (num_steps : Z) : list Z :=
  map (fun i : nat => (num_steps - 1 - Z.of_nat i)%Z) (seq 0 (Z.to_nat num_steps)).

(** [enumerate(l)] *)
Definition enumerate {A : Type} (l : list A) : list (nat * A) :=
  zip (seq 0 (length l)) l.

(** [torch.tensor(t != 0, device=dev).float().view(-1, 1, ..., 1)]: no
    noise when [t == 0]. *)
Definition nonzero_mask (dev : Device) (t : Z) : Vec :=
  mkVec dev [if bool_decide (t ≠ 0%Z) then 1 else 0].

(** The Langevin step
    [post_mean + nonzero_mask * torch.exp(0.5 * post_log_variance) * z]. *)
Definition langevin_step (dev : Device) (t : Z) (post_mean : Tensor)
    (post_log_variance : Vec) (z : Tensor) : Result Tensor :=
  let e := mkVec (vdev post_log_variance)
             (map (fun v => exp (0.5 * v)) (vals post_log_variance)) in
  c <-r vec_mul (nonzero_mask dev t) e;
  n <-r col_mul c z;
  tadd post_mean n.

Section Sampling.

(** The scalars that the random generator hands out, in order. *)
Variable noise : nat -> R.

(** [torch.randn_like(x)] *)
Definition randn_like (x : Tensor) : M Tensor :=
  fun s =>
    let n := numel_row x in
    (Ok (mkTensor (device x) (trail x)
           (map (fun i : nat =>
                   map (fun j : nat => noise (rng_pos s + i * n + j)) (seq 0 n))
                (seq 0 (length (rows x))))),
     mkSt (self s) (decoder_calls s) (S (randn_calls s))
          (rng_pos s + length (rows x) * n)).

(** The value of [x] after one pass through the loop body of [sample]. *)
Definition sample_step (x_t : Tensor) (cond : option Tensor) (x : Tensor) (t : Z)
  : M Tensor :=
  z <- randn_like x_t;;
  pmv <- get_posterior_mean_covariance x t true cond;;
  let '(post_mean, post_variance, post_log_variance) := pmv in
  lift (fun _ => langevin_step (device x_t) t post_mean post_log_variance z).

(** The loop of [sample] over the remaining iterations. *)
Fixpoint sample_loop (x_t : Tensor) (cond : option Tensor) (checkpoints : PyInts)
    (its : list (nat * Z)) (x : Tensor) (sample_dict : gmap string Tensor)
  : M (gmap string Tensor) :=
  match its with
  | [] => mret sample_dict
  | (idx, t) :: its' =>
      x' <- sample_step x_t cond x t;;
      let k := (Z.of_nat idx + 1)%Z in
      let sample_dict' :=
        if py_in k checkpoints then <[pretty k := x']> sample_dict
        else sample_dict in
      sample_loop x_t cond checkpoints its' x' sample_dict'
  end.

(** [DDPM.sample] *)
Definition sample (x_t : Tensor) (cond : option Tensor) (n_steps : option Z)
    (checkpoints : PyInts) : M (gmap string Tensor) :=
  _ <- ensure_consts (device x_t);;
  m <- get_self;;
  let num_steps := match n_steps with None => T m | Some n => n end in
  let checkpoints :=
    if eq_empty_list checkpoints then PyList [num_steps] else checkpoints in
  sample_loop x_t cond checkpoints (enumerate (reversed_range num_steps)) x_t ∅.

(** The chain without checkpoints: the value of [x] after the loop body
    has run for the timesteps [ts], in this order. *)
Fixpoint run_steps (x_t : Tensor) (cond : option Tensor) (ts : list Z) (x : Tensor)
  : M Tensor :=
  match ts with
  | [] => mret x
  | t :: ts' => x' <- sample_step x_t cond x t;; run_steps x_t cond ts' x'
  end.

End Sampling.

(** [DDPM.forward] *)
Definition forward (x eps : Tensor) (t : IdxTensor) (low_res : option Tensor)
  : M Tensor :=
  _ <- ensure_consts (device x);;
  x_t <- lift (fun m => compute_noisy_input m x eps t);;
  call_decoder x_t t low_res.

(** * Vocabulary of the statements *)

(** The sequences of a schedule as functions of its betas. *)
Definition alphas_of (bs : list R) : list R := map (fun b => 1 - b) bs.
Definition alpha_bar_of (bs : list R) : list R := cumprod (alphas_of bs).
Definition shifted_of (bs : list R) : list R :=
  1 :: take (length (alpha_bar_of bs) - 1) (alpha_bar_of bs).
Definition post_variance_of (bs : list R) : list R :=
  zip_with Rdiv (zip_with Rmult bs (map (fun a => 1 - a) (shifted_of bs)))
           (map (fun a => 1 - a) (alpha_bar_of bs)).

(** The record of constants, given the betas, [post_variance[1]] and the
    selected pair. *)
Definition consts_from (dev : Device) (bs : list R) (pv1 : R)
    (sel : list R * list R) : Consts :=
  {| cdev := dev;
     betas := bs;
     alphas := alphas_of bs;
     alpha_bar := alpha_bar_of bs;
     alpha_bar_shifted := shifted_of bs;
     sqrt_alpha_bar := map sqrt (alpha_bar_of bs);
     minus_sqrt_alpha_bar := map (fun a => sqrt (1 - a)) (alpha_bar_of bs);
     sqrt_recip_alphas_cumprod := map (fun a => sqrt (1 / a)) (alpha_bar_of bs);
     sqrt_recipm1_alphas_cumprod := map (fun a => sqrt (1 / a - 1)) (alpha_bar_of bs);
     post_variance := post_variance_of bs;
     post_log_variance_clipped := map ln (pv1 :: drop 1 (post_variance_of bs));
     p_variance := fst sel;
     p_log_variance := snd sel;
     post_coeff_1 :=
       zip_with Rdiv (zip_with Rmult bs (map sqrt (shifted_of bs)))
                (map (fun a => 1 - a) (alpha_bar_of bs));
     post_coeff_2 :=
       zip_with Rdiv
         (zip_with Rmult (map sqrt (alphas_of bs))
                   (map (fun a => 1 - a) (shifted_of bs)))
         (map (fun a => 1 - a) (alpha_bar_of bs)) |}.

Definition valid_var_type (vt : string) : Prop :=
  vt = "fixedlarge"%string \/ vt = "fixedsmall"%string.

(** The fourteen sequences of a schedule. *)
Definition tables (c : Consts) : list (list R) :=
  [ betas c; alphas c; alpha_bar c; alpha_bar_shifted c; sqrt_alpha_bar c;
    minus_sqrt_alpha_bar c; sqrt_recip_alphas_cumprod c;
    sqrt_recipm1_alphas_cumprod c; post_variance c; post_log_variance_clipped c;
    p_variance c; p_log_variance c; post_coeff_1 c; post_coeff_2 c ].

(** A model with two timesteps, a decoder that returns its input, a 1x2
    sample and a 1x2 noise tensor. *)
Definition ex_model : DDPM := init (fun x _ _ => x) (1/10) (1/5) 2 "fixedlarge".
Definition ex_x : Tensor := mkTensor Cpu [2%nat] [[1; 2]].
Definition ex_eps : Tensor := mkTensor Cpu [2%nat] [[3; 4]].

(** [like y x]: [y] is on the device of [x] and has the shape of [x], row
    by row. *)
Definition like (y x : Tensor) : Prop :=
  device y = device x /\ trail y = trail x /\
  map length (rows y) = map length (rows x).

(** [ready m dev]: the attributes of [m] are the schedule of its
    hyperparameters, built for [dev]. *)
Definition ready (m : DDPM) (dev : Device) : Prop :=
  exists c, consts m = Some c /\ build_consts m dev = Ok c.

(** [usable m dev]: the schedule of [m] can be built for [dev] and, when
    the flag [setup_consts] is set, it is the one [m] holds. *)
Definition usable (m : DDPM) (dev : Device) : Prop :=
  exists c, build_consts m dev = Ok c /\
            (setup_consts m = true -> consts m = Some c).

(** What the decoder must do: on a well-formed input it returns a
    well-formed tensor of the same shape on the same device. *)
Definition decoder_contract (dec : Tensor -> IdxTensor -> option Tensor -> Tensor)
  : Prop :=
  forall x t cond, wf_tensor x ->
    device (dec x t cond) = device x /\ shape (dec x t cond) = shape x /\
    wf_tensor (dec x t cond).

(** The keys that the iterations [i0, i0 + len) write: the step counts
    [idx + 1] that are in [checkpoints], as strings. *)
Fixpoint keys_from (cps : PyInts) (i0 len : nat) : gset string :=
  match len with
  | O => ∅
  | S len' =>
      (if py_in (Z.of_nat i0 + 1) cps
       then {[ pretty (Z.of_nat i0 + 1)%Z ]} else ∅)
      ∪ keys_from cps (S i0) len'
  end.

(** The number of steps and the checkpoints that a call works with. *)
Definition steps_of (m : DDPM) (n_steps : option Z) : Z :=
  match n_steps with None => T m | Some n => n end.

Definition checkpoints_of (m : DDPM) (n_steps : option Z) (cps : PyInts) : PyInts :=
  if eq_empty_list cps then PyList [steps_of m n_steps] else cps.

(** A state with the example model and nothing evaluated or drawn yet. *)
Definition ex_state : St := mkSt ex_model 0 0 0.

(** A model with ten timesteps. *)
Definition ex_model10 : DDPM := init (fun x _ _ => x) (1/10000) (1/50) 10 "fixedlarge".
Definition ex_state10 : St := mkSt ex_model10 0 0 0.

(** The number of scalars that one call of [randn_like(x_t)] takes. *)
Definition draw_size (x : Tensor) : nat := (length (rows x) * numel_row x)%nat.

(** * Properties *)

(** ** The loop counters *)

Example enumerate_reversed_range_3 :
  enumerate (reversed_range 3) = [(0%nat, 2%Z); (1%nat, 1%Z); (2%nat, 0%Z)].
Proof. reflexivity. Qed.

Example reversed_range_negative : reversed_range (-4) = [].
Proof. reflexivity. Qed.

Example py_in_set : py_in 5 (PySet {[1; 5; 10]}%Z) = true.
Proof. reflexivity. Qed.

Example empty_set_is_not_empty_list : eq_empty_list (PySet ∅) = false.
Proof. reflexivity. Qed.

Example keys_of_three_checkpoints :
  keys_from (PySet {[1; 5; 10]}%Z) 0 10 = {[ "1"; "5"; "10" ]}%string.
Proof. reflexivity. Qed.

(** ** Results and the two monads *)

Lemma rbind_Ok {A B : Type} (r : Result A) (k : A -> Result B) (b : B) :
  rbind r k = Ok b -> exists a, r = Ok a /\ k a = Ok b.
Proof. destruct r as [a|e]; simpl; [eauto | discriminate]. Qed.

Lemma passert_Ok (b : bool) : passert b = Ok tt -> b = true.
Proof. destruct b; [reflexivity | discriminate]. Qed.

(** ** [linspace] and [cumprod] *)

Lemma linspace_length (a b : R) (n : Z) (l : list R) :
  linspace a b n = Ok l -> Z.of_nat (length l) = n.
Proof.
  unfold linspace. repeat case_bool_decide; intros Hl; simplify_eq; simpl.
  - lia.
  - rewrite length_map, length_seq. lia.
Qed.

Lemma linspace_Ok (a b : R) (n : Z) :
  (0 <= n)%Z -> exists l, linspace a b n = Ok l.
Proof.
  intros Hn. unfold linspace. repeat case_bool_decide; eauto. lia.
Qed.

Lemma linspace_lookup (a b : R) (n : Z) (l : list R) (i : nat) (v : R) :
  (2 <= n)%Z -> linspace a b n = Ok l -> l !! i = Some v ->
  (Z.of_nat i < n)%Z /\ v = a + INR i * ((b - a) / IZR (n - 1)).
Proof.
  intros Hn. unfold linspace. repeat case_bool_decide; try lia.
  intros Hl Hi. simplify_eq.
  rewrite list_lookup_fmap in Hi.
  destruct (seq 0 (Z.to_nat n) !! i) as [j|] eqn:Hj; simpl in Hi; [|discriminate].
  apply lookup_seq in Hj as [-> Hlt]. simplify_eq. split; [lia | reflexivity].
Qed.


Lemma cumprod_cumprod_from (l : list R) : cumprod l = cumprod_from 1 l.
Proof. destruct l as [|a l]; simpl; [reflexivity | by rewrite Rmult_1_l]. Qed.

Lemma length_cumprod_from (l : list R) (acc : R) :
  length (cumprod_from acc l) = length l.
Proof. revert acc. induction l as [|a l IH]; intros acc; simpl; [done | by rewrite IH]. Qed.

Lemma length_cumprod (l : list R) : length (cumprod l) = length l.
Proof. rewrite cumprod_cumprod_from. apply length_cumprod_from. Qed.

(** A running product of factors in (0,1] stays in (0, acc]. *)
Lemma cumprod_from_bound (l : list R) (acc : R) :
  0 < acc ->
  Forall (fun a => 0 < a <= 1) l ->
  Forall (fun v => 0 < v <= acc) (cumprod_from acc l).
Proof.
  revert acc. induction l as [|a l IH]; intros acc Hacc Hl; simpl; [constructor|].
  inversion Hl as [|? ? Ha Hl']; subst.
  assert (0 < acc * a <= acc) as Hp by nra.
  constructor; [exact Hp|].
  eapply Forall_impl; [apply IH; [lra | exact Hl']|].
  simpl. intros v Hv. lra.
Qed.

(** With factors in (0,1) it stays strictly below. *)
Lemma cumprod_from_bound_strict (l : list R) (acc : R) :
  0 < acc ->
  Forall (fun a => 0 < a < 1) l ->
  Forall (fun v => 0 < v < acc) (cumprod_from acc l).
Proof.
  revert acc. induction l as [|a l IH]; intros acc Hacc Hl; simpl; [constructor|].
  inversion Hl as [|? ? Ha Hl']; subst.
  assert (0 < acc * a < acc) as Hp by nra.
  constructor; [exact Hp|].
  eapply Forall_impl; [apply IH; [lra | exact Hl']|].
  simpl. intros v Hv. lra.
Qed.


(** ** The schedule that [setup_precomputed_const] builds *)

Lemma build_consts_inv (m : DDPM) (dev : Device) (c : Consts) :
  build_consts m dev = Ok c ->
  exists bs pv1 sel,
    linspace (beta_1 m) (beta_2 m) (T m) = Ok bs /\
    post_variance_of bs !! 1%nat = Some pv1 /\
    select_variance (bs, map ln (pv1 :: drop 1 bs))
      (post_variance_of bs, map ln (pv1 :: drop 1 (post_variance_of bs)))
      (var_type m) = Ok sel /\
    c = consts_from dev bs pv1 sel.
Proof.
  unfold build_consts. intros H.
  apply rbind_Ok in H as (bs & Hbs & H).
  apply rbind_Ok in H as ([] & _ & H).
  apply rbind_Ok in H as (pv1 & Hpv1 & H).
  apply rbind_Ok in H as (pv1' & Hpv1' & H).
  apply rbind_Ok in H as (sel & Hsel & H).
  fold (alphas_of bs) in *. fold (alpha_bar_of bs) in *.
  fold (shifted_of bs) in *. fold (post_variance_of bs) in *.
  destruct (post_variance_of bs !! 1%nat) as [v|] eqn:Hv; [|discriminate].
  simplify_eq. by eexists bs, _, sel.
Qed.

Lemma length_alpha_bar_of (bs : list R) : length (alpha_bar_of bs) = length bs.
Proof. unfold alpha_bar_of, alphas_of. by rewrite length_cumprod, length_map. Qed.

Lemma length_shifted_of (bs : list R) :
  bs <> [] -> length (shifted_of bs) = length bs.
Proof.
  intros Hne. unfold shifted_of. simpl.
  rewrite length_take, length_alpha_bar_of.
  destruct bs; [done | simpl; lia].
Qed.

Lemma length_post_variance_of (bs : list R) :
  bs <> [] -> length (post_variance_of bs) = length bs.
Proof.
  intros Hne. unfold post_variance_of.
  rewrite !length_zip_with, !length_map, length_shifted_of, length_alpha_bar_of by done.
  lia.
Qed.

(** With at least two timesteps only the variance type is left to decide
    whether the schedule is built. *)
Lemma build_consts_select (m : DDPM) (dev : Device) :
  (2 <= T m)%Z ->
  exists bs pv1,
    build_consts m dev =
      (sel <-r select_variance (bs, map ln (pv1 :: drop 1 bs))
                 (post_variance_of bs, map ln (pv1 :: drop 1 (post_variance_of bs)))
                 (var_type m);
       Ok (consts_from dev bs pv1 sel)).
Proof.
  intros HT.
  destruct (linspace_Ok (beta_1 m) (beta_2 m) (T m)) as [bs Hbs]; [lia|].
  pose proof (linspace_length _ _ _ _ Hbs) as Hlen.
  assert (bs <> []) as Hne by (intros ->; simpl in Hlen; lia).
  assert (Z.of_nat (length (shifted_of bs)) = T m) as Hsh.
  { rewrite length_shifted_of by done. lia. }
  destruct (lookup_lt_is_Some_2 (post_variance_of bs) 1%nat) as [pv1 Hpv1].
  { rewrite length_post_variance_of by done. lia. }
  exists bs, pv1.
  unfold post_variance_of, shifted_of, alpha_bar_of, alphas_of in Hsh, Hpv1.
  unfold build_consts. rewrite Hbs. cbv beta iota zeta delta [rbind].
  rewrite (bool_decide_eq_true_2 _ Hsh). cbv beta iota delta [passert].
  rewrite Hpv1. reflexivity.
Qed.

Lemma build_consts_Ok (m : DDPM) (dev : Device) :
  (2 <= T m)%Z -> valid_var_type (var_type m) ->
  exists c, build_consts m dev = Ok c.
Proof.
  intros HT Hvt.
  destruct (build_consts_select m dev HT) as (bs & pv1 & ->).
  unfold select_variance.
  destruct Hvt as [-> | ->]; simpl; eauto.
Qed.

(** ** The linear schedule *)

(** An entry of [linspace] lies between its two ends. *)
Lemma linspace_between (a b : R) (n : Z) (l : list R) (i : nat) (v : R) :
  linspace a b n = Ok l -> l !! i = Some v ->
  Rmin a b <= v <= Rmax a b.
Proof.
  intros Hl Hi.
  destruct (decide (n = 1%Z)) as [->|Hn1].
  { unfold linspace in Hl. simpl in Hl. simplify_eq.
    destruct i; simpl in Hi; simplify_eq.
    split; [apply Rmin_l | apply Rmax_l]. }
  assert (2 <= n)%Z as Hn.
  { pose proof (linspace_length _ _ _ _ Hl) as Hlen.
    apply lookup_lt_Some in Hi. lia. }
  destruct (linspace_lookup _ _ _ _ _ _ Hn Hl Hi) as [Hlt ->].
  assert (0 < IZR (n - 1)) as Hd by (apply IZR_lt; lia).
  assert (0 <= INR i <= IZR (n - 1)) as Hk.
  { rewrite INR_IZR_INZ. split; apply IZR_le; lia. }
  set (k := INR i / IZR (n - 1)).
  assert (0 <= k <= 1) as Hk1.
  { unfold k. split.
    - apply Rmult_le_pos; [lra|]. left. by apply Rinv_0_lt_compat.
    - apply (Rmult_le_reg_r (IZR (n - 1))); [done|].
      unfold Rdiv. rewrite Rmult_assoc, Rinv_l by lra. lra. }
  replace (a + INR i * ((b - a) / IZR (n - 1))) with (a + k * (b - a))
    by (unfold k; field; lra).
  unfold Rmin, Rmax. destruct (Rle_dec a b); split; nra.
Qed.

Lemma linspace_range (a b : R) (n : Z) (l : list R) :
  0 <= a < 1 -> 0 <= b < 1 -> linspace a b n = Ok l ->
  Forall (fun v => 0 <= v < 1) l.
Proof.
  intros Ha Hb Hl. apply Forall_lookup. intros i v Hi.
  pose proof (linspace_between _ _ _ _ _ _ Hl Hi) as Hv.
  unfold Rmin, Rmax in Hv. destruct (Rle_dec a b); lra.
Qed.

Lemma linspace_range_strict (a b : R) (n : Z) (l : list R) :
  0 < a < 1 -> 0 < b < 1 -> linspace a b n = Ok l ->
  Forall (fun v => 0 < v < 1) l.
Proof.
  intros Ha Hb Hl. apply Forall_lookup. intros i v Hi.
  pose proof (linspace_between _ _ _ _ _ _ Hl Hi) as Hv.
  unfold Rmin, Rmax in Hv. destruct (Rle_dec a b); lra.
Qed.


(** ** The cumulative products of a schedule with betas in [0,1) *)

Lemma alphas_of_range (bs : list R) :
  Forall (fun b => 0 <= b < 1) bs ->
  Forall (fun a => 0 < a <= 1) (alphas_of bs).
Proof.
  intros H. unfold alphas_of. apply Forall_fmap.
  eapply Forall_impl; [exact H|]. simpl. intros b Hb. lra.
Qed.

Lemma alpha_bar_of_range (bs : list R) :
  Forall (fun b => 0 <= b < 1) bs ->
  Forall (fun a => 0 < a <= 1) (alpha_bar_of bs).
Proof.
  intros H. unfold alpha_bar_of. rewrite cumprod_cumprod_from.
  apply cumprod_from_bound; [lra | by apply alphas_of_range].
Qed.


Lemma select_variance_inv {A : Type} (large small sel : A) (vt : string) :
  select_variance large small vt = Ok sel ->
  (vt = "fixedlarge"%string /\ sel = large) \/
  (vt = "fixedsmall"%string /\ sel = small).
Proof.
  unfold select_variance. repeat case_bool_decide; intros ?; simplify_eq; eauto.
Qed.

Lemma tables_length (m : DDPM) (dev : Device) (c : Consts) :
  build_consts m dev = Ok c ->
  Forall (fun l => Z.of_nat (length l) = T m) (tables c).
Proof.
  intros Hc.
  destruct (build_consts_inv _ _ _ Hc) as (bs & pv1 & sel & Hbs & Hpv1 & Hsel & ->).
  pose proof (linspace_length _ _ _ _ Hbs) as Hlen.
  assert (bs <> []) as Hne.
  { intros ->. unfold post_variance_of in Hpv1. simpl in Hpv1. discriminate. }
  assert (length bs <> 0%nat) as Hne' by (destruct bs; simpl; [done | lia]).
  pose proof (length_shifted_of bs Hne) as Hsh.
  pose proof (length_alpha_bar_of bs) as Hab.
  pose proof (length_post_variance_of bs Hne) as Hpv.
  assert (Z.of_nat (length (fst sel)) = T m /\ Z.of_nat (length (snd sel)) = T m)
    as [Hs1 Hs2].
  { apply select_variance_inv in Hsel as [[_ ->] | [_ ->]]; simpl;
      rewrite ?length_map, ?length_drop, ?Hpv; lia. }
  unfold tables, consts_from. simpl betas. simpl alphas. simpl alpha_bar.
  cbn [alpha_bar_shifted sqrt_alpha_bar minus_sqrt_alpha_bar
       sqrt_recip_alphas_cumprod sqrt_recipm1_alphas_cumprod post_variance
       post_log_variance_clipped p_variance p_log_variance post_coeff_1
       post_coeff_2].
  repeat (apply Forall_cons; split); try apply Forall_nil;
    rewrite ?length_zip_with, ?length_map, ?length_cons, ?length_drop, ?Hsh, ?Hab, ?Hpv;
    unfold alphas_of; rewrite ?length_map; lia.
Qed.




(** C5: the pair [(p_variance, p_log_variance)] is [(betas,
    log([post_variance[1]] ++ betas[1:]))] for ["fixedlarge"] and
    [(post_variance, log([post_variance[1]] ++ post_variance[1:]))] for
    ["fixedsmall"]; the clipped posterior log-variance starts with
    [log(post_variance[1])], not with the logarithm of
    [post_variance[0]]. *)
Theorem variance_selection (m : DDPM) (dev : Device) :
  (2 <= T m)%Z -> valid_var_type (var_type m) ->
  exists c pv1,
    build_consts m dev = Ok c /\
    post_variance c !! 1%nat = Some pv1 /\
    post_log_variance_clipped c = map ln (pv1 :: drop 1 (post_variance c)) /\
    post_log_variance_clipped c !! 0%nat = Some (ln pv1) /\
    (var_type m = "fixedlarge"%string ->
       p_variance c = betas c /\
       p_log_variance c = map ln (pv1 :: drop 1 (betas c))) /\
    (var_type m = "fixedsmall"%string ->
       p_variance c = post_variance c /\
       p_log_variance c = map ln (pv1 :: drop 1 (post_variance c))).
Proof.
  intros HT Hvt.
  destruct (build_consts_Ok m dev HT Hvt) as [c Hc].
  destruct (build_consts_inv _ _ _ Hc) as (bs & pv1 & sel & Hbs & Hpv1 & Hsel & ->).
  exists (consts_from dev bs pv1 sel), pv1. simpl.
  split; [exact Hc|].
  split; [exact Hpv1|]. split; [reflexivity|]. split; [reflexivity|].
  apply select_variance_inv in Hsel as [[Hv ->] | [Hv ->]]; simpl;
    split; intros Hvt'; rewrite Hvt' in Hv; try discriminate; done.
Qed.

(** The selection of C5 for ["fixedsmall"] and [T = 2]. *)
Lemma variance_selection_witness :
  exists c pv1,
    build_consts (init (fun x _ _ => x) (1/10) (1/5) 2 "fixedsmall") (Cuda 0) = Ok c /\
    post_variance c !! 1%nat = Some pv1 /\
    post_log_variance_clipped c = map ln (pv1 :: drop 1 (post_variance c)) /\
    post_log_variance_clipped c !! 0%nat = Some (ln pv1) /\
    (var_type (init (fun x _ _ => x) (1/10) (1/5) 2 "fixedsmall") = "fixedlarge"%string ->
       p_variance c = betas c /\
       p_log_variance c = map ln (pv1 :: drop 1 (betas c))) /\
    (var_type (init (fun x _ _ => x) (1/10) (1/5) 2 "fixedsmall") = "fixedsmall"%string ->
       p_variance c = post_variance c /\
       p_log_variance c = map ln (pv1 :: drop 1 (post_variance c))).
Proof.
  apply (variance_selection (init (fun x _ _ => x) (1/10) (1/5) 2 "fixedsmall") (Cuda 0));
    simpl; first [lia | by right].
Defined.

(** C6 as stated fails: a schedule with [beta_1 >= beta_2] is built. *)
Lemma decreasing_betas_accepted :
  1/5 >= 1/10 /\
  exists c, build_consts (init (fun x _ _ => x) (1/5) (1/10) 2 "fixedlarge") Cpu = Ok c.
Proof.
  split; [lra|]. apply build_consts_Ok; simpl; [lia | by left].
Qed.

(** C6, as the code has it: [__init__] checks nothing and
    [setup_precomputed_const] has no check of its own.  It raises
    [RuntimeError] for a negative [T] (from [linspace]), [AssertionError]
    for [T = 0], [IndexError] for [T = 1] and, from [T = 2] on, [KeyError]
    for an unknown variance type; every other configuration is accepted,
    whatever [beta_1] and [beta_2] are. *)
Theorem build_consts_failures (m : DDPM) (dev : Device) :
  ((T m < 0)%Z -> build_consts m dev = Raise RuntimeError) /\
  (T m = 0%Z -> build_consts m dev = Raise AssertionError) /\
  (T m = 1%Z -> build_consts m dev = Raise IndexError) /\
  ((2 <= T m)%Z -> ~ valid_var_type (var_type m) ->
     build_consts m dev = Raise KeyError) /\
  ((2 <= T m)%Z -> valid_var_type (var_type m) ->
     exists c, build_consts m dev = Ok c).
Proof.
  repeat split.
  - intros HT. unfold build_consts, linspace.
    by rewrite bool_decide_eq_true_2.
  - intros HT. unfold build_consts, linspace. rewrite HT. reflexivity.
  - intros HT. unfold build_consts, linspace. rewrite HT. reflexivity.
  - intros HT Hvt.
    destruct (build_consts_select m dev HT) as (bs & pv1 & ->).
    unfold select_variance, valid_var_type in *.
    repeat case_bool_decide; simpl; tauto.
  - apply build_consts_Ok.
Qed.

(** An unknown variance type with [T = 2] raises [KeyError]. *)
Lemma build_consts_failures_witness :
  build_consts (init (fun x _ _ => x) (1/10) (1/5) 2 "learned") Cpu = Raise KeyError.
Proof.
  apply (build_consts_failures (init (fun x _ _ => x) (1/10) (1/5) 2 "learned") Cpu).
  - simpl. lia.
  - simpl. intros [H | H]; discriminate H.
Defined.

(** ** Gathering and broadcasting *)

Lemma gather_at_Some (a : list R) (i : Z) (v : R) :
  gather_at a i = Some v <-> (0 <= i)%Z /\ a !! Z.to_nat i = Some v.
Proof.
  unfold gather_at. case_bool_decide; split; try tauto; try discriminate.
Qed.

Lemma gather_at_in_range (a : list R) (i : Z) :
  (0 <= i < Z.of_nat (length a))%Z -> is_Some (gather_at a i).
Proof.
  intros Hi. unfold gather_at. rewrite bool_decide_eq_true_2 by lia.
  apply lookup_lt_is_Some_2. lia.
Qed.

(** In range and on one device, [gather] returns one entry per index. *)
Lemma gather_Ok (a : Vec) (t : IdxTensor) :
  vdev a = idev t ->
  Forall (fun i => (0 <= i < Z.of_nat (length (vals a)))%Z) (ivals t) ->
  exists vs,
    gather a t = Ok (mkVec (vdev a) vs) /\
    mapM (gather_at (vals a)) (ivals t) = Some vs /\
    length vs = length (ivals t).
Proof.
  intros Hdev Hrange. unfold gather. rewrite bool_decide_eq_true_2 by done.
  destruct (mapM (gather_at (vals a)) (ivals t)) as [vs|] eqn:Hvs.
  - exists vs. repeat split. symmetry. by eapply length_mapM.
  - apply mapM_None in Hvs. apply Exists_exists in Hvs as (i & Hin & Hnone).
    rewrite Forall_forall in Hrange.
    destruct (gather_at_in_range (vals a) i (Hrange i Hin)) as [v Hv]. congruence.
Qed.

Lemma mapM_gather_fmap (f : R -> R) (a : list R) (t : list Z) (vs : list R) :
  mapM (gather_at a) t = Some vs ->
  mapM (gather_at (map f a)) t = Some (map f vs).
Proof.
  rewrite !mapM_Some. intros H. apply Forall2_fmap_r.
  eapply Forall2_impl; [exact H|]. simpl. intros i v Hv.
  apply gather_at_Some in Hv as [Hi Hv]. apply gather_at_Some. split; [done|].
  by rewrite list_lookup_fmap, Hv.
Qed.

Lemma mapM_gather_Forall (P : R -> Prop) (a : list R) (t : list Z) (vs : list R) :
  Forall P a -> mapM (gather_at a) t = Some vs -> Forall P vs.
Proof.
  intros Ha. rewrite mapM_Some. intros H.
  induction H as [|i v t vs Hv _ IH]; constructor; [|exact IH].
  apply gather_at_Some in Hv as [_ Hv].
  rewrite Forall_lookup in Ha. by eapply Ha.
Qed.

Lemma bcast_rows_same (f : R -> R -> R) (cs : list R) (rs : list (list R)) :
  length cs = length rs ->
  bcast_rows f cs rs = Ok (zip_with (fun c r => map (f c) r) cs rs).
Proof. intros H. unfold bcast_rows. by rewrite bool_decide_eq_true_2. Qed.

(** ** The round trip through the forward process *)

Lemma roundtrip_scalar (a v e : R) :
  0 < a <= 1 ->
  sqrt (1 / a) * (v * sqrt a + e * sqrt (1 - a)) - sqrt (1 / a - 1) * e = v.
Proof.
  intros Ha.
  assert (0 < / a) as Hinv by (apply Rinv_0_lt_compat; lra).
  assert (0 <= 1 / a) as Hinv' by lra.
  assert (sqrt (1 / a) * sqrt a = 1) as H1.
  { rewrite <- sqrt_mult by lra.
    replace (1 / a * a) with 1 by (field; lra). apply sqrt_1. }
  assert (sqrt (1 / a) * sqrt (1 - a) = sqrt (1 / a - 1)) as H2.
  { rewrite <- sqrt_mult by lra. f_equal. field. lra. }
  rewrite <- H2.
  replace (sqrt (1 / a) * (v * sqrt a + e * sqrt (1 - a)))
    with (v * (sqrt (1 / a) * sqrt a) + e * (sqrt (1 / a) * sqrt (1 - a))) by ring.
  rewrite H1. ring.
Qed.

Lemma roundtrip_row (a : R) (r e : list R) :
  0 < a <= 1 -> length r = length e ->
  zip_with Rminus
    (map (Rmult (sqrt (1 / a)))
       (zip_with Rplus (map (fun v => v * sqrt a) r)
                 (map (fun v => v * sqrt (1 - a)) e)))
    (map (Rmult (sqrt (1 / a - 1))) e) = r.
Proof.
  intros Ha. revert e. induction r as [|v r IH]; intros [|w e] Hlen;
    simpl in *; try done.
  f_equal; [by apply roundtrip_scalar | apply IH; lia].
Qed.

Lemma roundtrip_rows (als : list R) (xs es : list (list R)) :
  Forall (fun a => 0 < a <= 1) als ->
  length als = length xs ->
  Forall2 (fun r e => length r = length e) xs es ->
  zip_with (zip_with Rminus)
    (zip_with (fun c r => map (Rmult c) r) (map (fun a => sqrt (1 / a)) als)
       (zip_with (zip_with Rplus)
          (zip_with (fun c r => map (fun v => v * c) r) (map sqrt als) xs)
          (zip_with (fun c r => map (fun v => v * c) r)
             (map (fun a => sqrt (1 - a)) als) es)))
    (zip_with (fun c r => map (Rmult c) r)
       (map (fun a => sqrt (1 / a - 1)) als) es) = xs.
Proof.
  intros Hals Hlen Hxe. revert als Hals Hlen.
  induction Hxe as [|r e xs es Hre _ IH]; intros [|a als] Hals Hlen;
    simpl in *; try done.
  inversion Hals as [|? ? Ha Hals']; subst.
  f_equal; [by apply roundtrip_row | apply IH; [done | lia]].
Qed.

Lemma same_length_rows (n : nat) (xs ys : list (list R)) :
  Forall (fun r => length r = n) xs -> Forall (fun r => length r = n) ys ->
  length xs = length ys ->
  Forall2 (fun r e => length r = length e) xs ys.
Proof.
  intros Hx. revert ys. induction Hx as [|r xs Hr _ IH]; intros [|e es] Hy Hlen;
    simpl in *; try done.
  inversion Hy; subst. constructor; [congruence | apply IH; [done | lia]].
Qed.

(** Two well-formed tensors of one shape have rows of the same lengths. *)
Lemma same_shape_rows (x y : Tensor) :
  wf_tensor x -> wf_tensor y -> shape x = shape y ->
  Forall2 (fun r e => length r = length e) (rows x) (rows y).
Proof.
  unfold wf_tensor, shape, numel_row. intros Hx Hy Hs.
  injection Hs as Hlen Htr. rewrite Htr in Hx.
  by eapply same_length_rows.
Qed.

Lemma gather_fmap (f : R -> R) (dev : Device) (a : list R) (t : IdxTensor)
    (vs : list R) :
  dev = idev t -> mapM (gather_at a) (ivals t) = Some vs ->
  gather (mkVec dev (map f a)) t = Ok (mkVec dev (map f vs)).
Proof.
  intros Hdev Hvs. unfold gather. simpl.
  rewrite bool_decide_eq_true_2 by done.
  by rewrite (mapM_gather_fmap f _ _ _ Hvs).
Qed.

Lemma mul_col_same (x : Tensor) (c : Vec) :
  vdev c = device x -> length (vals c) = length (rows x) ->
  mul_col x c =
    Ok (mkTensor (device x) (trail x)
          (zip_with (fun k r => map (fun v => v * k) r) (vals c) (rows x))).
Proof.
  intros Hdev Hlen. unfold mul_col.
  rewrite bool_decide_eq_true_2 by done. by rewrite bcast_rows_same.
Qed.

Lemma col_mul_same (c : Vec) (x : Tensor) :
  vdev c = device x -> length (vals c) = length (rows x) ->
  col_mul c x =
    Ok (mkTensor (device x) (trail x)
          (zip_with (fun k r => map (Rmult k) r) (vals c) (rows x))).
Proof.
  intros Hdev Hlen. unfold col_mul.
  rewrite bool_decide_eq_true_2 by done. by rewrite bcast_rows_same.
Qed.

Lemma tzip_same (f : R -> R -> R) (x y : Tensor) :
  device x = device y -> shape x = shape y ->
  tzip f x y =
    Ok (mkTensor (device x) (trail x) (zip_with (zip_with f) (rows x) (rows y))).
Proof.
  intros Hdev Hsh. unfold tzip. by rewrite !bool_decide_eq_true_2.
Qed.

Lemma setup_precomputed_const_inv (m m' : DDPM) (dev : Device) :
  setup_precomputed_const m dev = Ok m' ->
  exists c,
    build_consts m dev = Ok c /\
    m' = mkDDPM (decoder m) (T m) (beta_1 m) (beta_2 m) (var_type m)
                (setup_consts m) (Some c).
Proof.
  unfold setup_precomputed_const. intros H.
  apply rbind_Ok in H as (c & Hc & H). simplify_eq. eauto.
Qed.

(** C1: on a schedule with betas in [0,1) (in particular for
    [0 < beta_1 < beta_2 < 1]), for a clean sample [x], noise [eps] of the
    same shape and one timestep in [0,T) per batch element,
    [compute_noisy_input] returns a tensor from which
    [_predict_xstart_from_eps], with the same [t] and [eps], returns [x]
    itself. *)
Theorem predict_xstart_of_noisy (m m' : DDPM) (x eps : Tensor) (t : IdxTensor) :
  0 <= beta_1 m < 1 -> 0 <= beta_2 m < 1 ->
  setup_precomputed_const m (device x) = Ok m' ->
  device eps = device x -> idev t = device x ->
  wf_tensor x -> wf_tensor eps -> shape eps = shape x ->
  length (ivals t) = length (rows x) ->
  Forall (fun i => (0 <= i < T m)%Z) (ivals t) ->
  exists x_t,
    compute_noisy_input m' x eps t = Ok x_t /\
    _predict_xstart_from_eps m' x_t t eps = Ok x.
Proof.
  intros Hb1 Hb2 Hsetup Hde Hdt Hwx Hwe Hshape Hlen Hrange.
  destruct (setup_precomputed_const_inv _ _ _ Hsetup) as (c & Hc & ->).
  destruct (build_consts_inv _ _ _ Hc) as (bs & pv1 & sel & Hbs & Hpv1 & Hsel & ->).
  pose proof (linspace_length _ _ _ _ Hbs) as HlenT.
  pose proof (linspace_range _ _ _ _ Hb1 Hb2 Hbs) as Hbrange.
  pose proof (alpha_bar_of_range bs Hbrange) as Habrange.
  destruct (gather_Ok (mkVec (device x) (alpha_bar_of bs)) t) as (als & _ & Hals & Hlals).
  { done. }
  { simpl. rewrite length_alpha_bar_of.
    eapply Forall_impl; [exact Hrange|]. simpl. intros i Hi. lia. }
  simpl in Hals.
  pose proof (mapM_gather_Forall _ _ _ _ Habrange Hals) as Halsrange.
  pose proof (same_shape_rows x eps Hwx Hwe (eq_sym Hshape)) as Hrows.
  injection Hshape as Hlrows Htrail.
  set (noisy := mkTensor (device x) (trail x)
         (zip_with (zip_with Rplus)
            (zip_with (fun k r => map (fun v => v * k) r) (map sqrt als) (rows x))
            (zip_with (fun k r => map (fun v => v * k) r)
               (map (fun a => sqrt (1 - a)) als) (rows eps)))).
  assert (length (rows noisy) = length (rows x)) as Hlnoisy.
  { unfold noisy. simpl. rewrite !length_zip_with, !length_map. lia. }
  exists noisy. split.
  - unfold compute_noisy_input, table, extract. simpl.
    rewrite bool_decide_eq_true_2 by (unfold shape; congruence). simpl.
    rewrite (gather_fmap sqrt _ _ _ _ (eq_sym Hdt) Hals). simpl.
    rewrite mul_col_same by (simpl; rewrite ?length_map; congruence). simpl.
    rewrite (gather_fmap (fun a => sqrt (1 - a)) _ _ _ _ (eq_sym Hdt) Hals). simpl.
    rewrite mul_col_same by (simpl; rewrite ?length_map; congruence). simpl.
    unfold tadd. rewrite tzip_same.
    + reflexivity.
    + simpl. congruence.
    + unfold shape. simpl. rewrite !length_zip_with, !length_map.
      f_equal; [lia | congruence].
  - unfold _predict_xstart_from_eps, table, extract. simpl consts. cbv beta iota.
    rewrite bool_decide_eq_true_2
      by (unfold shape; rewrite Hlnoisy; simpl; congruence). simpl rbind at 1.
    cbn [sqrt_recip_alphas_cumprod sqrt_recipm1_alphas_cumprod consts_from cdev rbind].
    rewrite (gather_fmap (fun a => sqrt (1 / a)) _ _ _ _ (eq_sym Hdt) Hals).
    cbn [rbind].
    rewrite col_mul_same
      by (first [reflexivity | cbn [vals]; rewrite length_map, Hlnoisy; lia]).
    cbn [rbind].
    rewrite (gather_fmap (fun a => sqrt (1 / a - 1)) _ _ _ _ (eq_sym Hdt) Hals).
    cbn [rbind].
    rewrite col_mul_same by (simpl; rewrite ?length_map; congruence). cbn [rbind].
    unfold tsub. rewrite tzip_same.
    + cbn [device trail rows vals noisy]. rewrite roundtrip_rows.
      * by destruct x.
      * done.
      * lia.
      * done.
    + simpl. done.
    + unfold shape. simpl. rewrite !length_zip_with, !length_map. f_equal; [lia | done].
Qed.

(** The round trip of C1 at timestep 1. *)
Lemma predict_xstart_of_noisy_witness :
  exists m' x_t,
    setup_precomputed_const ex_model Cpu = Ok m' /\
    compute_noisy_input m' ex_x ex_eps (mkIdx Cpu [1%Z]) = Ok x_t /\
    _predict_xstart_from_eps m' x_t (mkIdx Cpu [1%Z]) ex_eps = Ok ex_x.
Proof.
  assert (exists m', setup_precomputed_const ex_model Cpu = Ok m') as [m' Hm'].
  { eexists. reflexivity. }
  destruct (predict_xstart_of_noisy ex_model m' ex_x ex_eps (mkIdx Cpu [1%Z]))
    as (x_t & Hn & Hp).
  - simpl. lra.
  - simpl. lra.
  - exact Hm'.
  - reflexivity.
  - reflexivity.
  - repeat constructor.
  - repeat constructor.
  - reflexivity.
  - reflexivity.
  - repeat constructor; simpl; lia.
  - exists m', x_t. auto.
Defined.

(** ** Tensors of one device and one shape *)

Lemma like_refl (x : Tensor) : like x x.
Proof. by repeat split. Qed.

Lemma like_sym (x y : Tensor) : like x y -> like y x.
Proof. intros (Hd & Ht & Hr). by repeat split. Qed.

Lemma like_trans (x y z : Tensor) : like x y -> like y z -> like x z.
Proof. intros (Hd & Ht & Hr) (Hd' & Ht' & Hr'). repeat split; congruence. Qed.

Lemma like_rows_length (x y : Tensor) : like x y -> length (rows x) = length (rows y).
Proof.
  intros (_ & _ & Hr). apply (f_equal length) in Hr. by rewrite !length_map in Hr.
Qed.

Lemma like_shape (x y : Tensor) : like x y -> shape x = shape y.
Proof.
  intros Hl. pose proof (like_rows_length _ _ Hl) as Hr.
  destruct Hl as (_ & Ht & _). unfold shape. congruence.
Qed.

Lemma like_wf (x y : Tensor) : like x y -> wf_tensor y -> wf_tensor x.
Proof.
  intros (_ & Ht & Hr). unfold wf_tensor, numel_row. rewrite Ht.
  intros Hy.
  assert (Forall (fun n => n = foldr Nat.mul 1%nat (trail y)) (map length (rows x)))
    as Hx by (rewrite Hr; by apply Forall_fmap).
  by apply Forall_fmap in Hx.
Qed.

Lemma lengths_replicate (n : nat) (l : list (list R)) :
  Forall (fun r => length r = n) l -> map length l = replicate (length l) n.
Proof. induction 1 as [|r l Hr _ IH]; simpl; [done | by rewrite Hr, IH]. Qed.

Lemma wf_like (x y : Tensor) :
  wf_tensor x -> wf_tensor y -> device x = device y -> shape x = shape y -> like x y.
Proof.
  unfold wf_tensor, numel_row. intros Hx Hy Hd Hs. injection Hs as Hl Ht.
  repeat split; [done | done |].
  rewrite (lengths_replicate _ _ Hx), (lengths_replicate _ _ Hy). congruence.
Qed.

Lemma clamp_like (lo hi : R) (x : Tensor) : like (clamp lo hi x) x.
Proof.
  repeat split. simpl. rewrite <- list_fmap_compose.
  apply list_fmap_ext. intros i r _. simpl. by rewrite length_map.
Qed.

Lemma lengths_scale (f : R -> R -> R) (cs : list R) (rs : list (list R)) :
  length cs = length rs ->
  map length (zip_with (fun k r => map (f k) r) cs rs) = map length rs.
Proof.
  revert cs. induction rs as [|r rs IH]; intros [|k ks] Hl; simpl in *; try done.
  rewrite length_map. f_equal. apply IH. lia.
Qed.

Lemma lengths_zip (f : R -> R -> R) (xs ys : list (list R)) :
  map length ys = map length xs ->
  map length (zip_with (zip_with f) xs ys) = map length xs.
Proof.
  revert ys. induction xs as [|r xs IH]; intros [|e ys] Hl; simpl in *; try done.
  injection Hl as Hre Hl. rewrite length_zip_with. f_equal; [lia | by apply IH].
Qed.

Lemma col_mul_like (c : Vec) (x : Tensor) :
  vdev c = device x -> length (vals c) = length (rows x) ->
  exists y, col_mul c x = Ok y /\ like y x /\
    rows y = zip_with (fun k r => map (Rmult k) r) (vals c) (rows x).
Proof.
  intros Hd Hl. rewrite col_mul_same by done. eexists. split; [reflexivity|].
  split; [|reflexivity]. repeat split. simpl. by apply lengths_scale.
Qed.

Lemma tzip_like (f : R -> R -> R) (x y : Tensor) :
  like y x ->
  exists w, tzip f x y = Ok w /\ like w x /\
    device w = device x /\ trail w = trail x /\
    rows w = zip_with (zip_with f) (rows x) (rows y).
Proof.
  intros Hl. pose proof (like_shape _ _ Hl) as Hs. destruct Hl as (Hd & Ht & Hr).
  rewrite tzip_same by done. eexists. split; [reflexivity|].
  split; [|done]. repeat split. simpl. by apply lengths_zip.
Qed.

(** ** One step of the reverse chain *)

Lemma build_consts_T (m : DDPM) (dev : Device) (c : Consts) :
  build_consts m dev = Ok c -> (2 <= T m)%Z.
Proof.
  intros Hc.
  destruct (build_consts_inv _ _ _ Hc) as (bs & pv1 & sel & Hbs & Hpv1 & _ & _).
  pose proof (linspace_length _ _ _ _ Hbs) as Hlen.
  apply lookup_lt_Some in Hpv1.
  assert (bs <> []) as Hne.
  { intros ->. unfold post_variance_of in Hpv1. simpl in Hpv1. lia. }
  rewrite length_post_variance_of in Hpv1 by done. lia.
Qed.

Lemma ready_tables (m : DDPM) (dev : Device) :
  ready m dev ->
  exists c, consts m = Some c /\ cdev c = dev /\
    Forall (fun l => Z.of_nat (length l) = T m) (tables c).
Proof.
  intros (c & Hc & Hb). exists c. split; [done|].
  split; [|by eapply tables_length].
  by destruct (build_consts_inv _ _ _ Hb) as (bs & pv1 & sel & _ & _ & _ & ->).
Qed.

Lemma extract_full (a : Vec) (b : nat) (t : Z) (sh : list nat) :
  (0 <= t < Z.of_nat (length (vals a)))%Z ->
  exists vs, extract a (full b t (vdev a)) sh = Ok (mkVec (vdev a) vs) /\
             length vs = b.
Proof.
  intros Ht. destruct (gather_Ok a (full b t (vdev a))) as (vs & Hg & _ & Hl).
  - done.
  - simpl. by apply Forall_replicate.
  - exists vs. split; [exact Hg|]. simpl in Hl. by rewrite length_replicate in Hl.
Qed.

(** The result of [extract] on a table of [m], for the timestep [t]
    replicated over a batch of [b]. *)
Lemma table_extract (m : DDPM) (dev : Device) (f : Consts -> list R) (b : nat)
    (t : Z) (sh : list nat) :
  ready m dev -> (forall c, f c ∈ tables c) -> (0 <= t < T m)%Z ->
  exists vs,
    (a <-r table m f; extract a (full b t dev) sh) = Ok (mkVec dev vs) /\
    length vs = b.
Proof.
  intros Hr Hf Ht. destruct (ready_tables _ _ Hr) as (c & Hc & Hd & Hlen).
  unfold table. rewrite Hc. simpl. subst dev.
  rewrite Forall_forall in Hlen. specialize (Hlen _ (Hf c)).
  apply (extract_full (mkVec (cdev c) (f c))). simpl. lia.
Qed.

Ltac in_tables := intros ?; unfold tables; repeat constructor.

Lemma predict_xstart_Ok (m : DDPM) (x eps : Tensor) (t : Z) :
  ready m (device x) -> like eps x -> (0 <= t < T m)%Z ->
  exists r,
    _predict_xstart_from_eps m x (full (length (rows x)) t (device x)) eps = Ok r /\
    like r x.
Proof.
  intros Hr Hl Ht. unfold _predict_xstart_from_eps.
  rewrite bool_decide_eq_true_2 by (symmetry; by apply like_shape). simpl.
  assert (forall c, sqrt_recip_alphas_cumprod c ∈ tables c) as Hf1 by in_tables.
  assert (forall c, sqrt_recipm1_alphas_cumprod c ∈ tables c) as Hf2 by in_tables.
  pose proof (table_extract m _ _ (length (rows x)) t (shape x) Hr Hf1 Ht)
    as (v1 & H1 & Hl1).
  pose proof (table_extract m _ _ (length (rows x)) t (shape x) Hr Hf2 Ht)
    as (v2 & H2 & Hl2).
  destruct (table m sqrt_recip_alphas_cumprod) as [a1|]; [|discriminate].
  simpl in H1 |- *. rewrite H1. simpl.
  destruct (col_mul_like (mkVec (device x) v1) x) as (l & Hcl & Hll & _); [done..|].
  rewrite Hcl. simpl.
  destruct (table m sqrt_recipm1_alphas_cumprod) as [a2|]; [|discriminate].
  simpl in H2 |- *. rewrite H2. simpl.
  destruct (col_mul_like (mkVec (device x) v2) eps) as (r & Hcr & Hlr & _).
  { simpl. symmetry. apply Hl. }
  { simpl. rewrite Hl2. symmetry. by apply like_rows_length. }
  rewrite Hcr. simpl.
  destruct (tzip_like Rminus l r) as (w & Hw & Hlw & _).
  { eapply like_trans; [exact Hlr|]. eapply like_trans; [exact Hl|]. by apply like_sym. }
  exists w. split; [exact Hw|]. by eapply like_trans.
Qed.

Lemma get_posterior_Ok (x : Tensor) (t : Z) (clip : bool) (cond : option Tensor)
    (s : St) :
  ready (self s) (device x) -> decoder_contract (decoder (self s)) ->
  wf_tensor x -> (0 <= t < T (self s))%Z ->
  exists pm pv plv,
    get_posterior_mean_covariance x t clip cond s =
      (Ok (pm, pv, plv),
       mkSt (self s) (S (decoder_calls s)) (randn_calls s) (rng_pos s)) /\
    like pm x /\ vdev plv = device x /\ length (vals plv) = length (rows x).
Proof.
  intros Hr Hdec Hwf Ht.
  set (t_ := full (length (rows x)) t (device x)).
  destruct (Hdec x t_ cond Hwf) as (Hdd & Hds & Hdw).
  assert (like (decoder (self s) x t_ cond) x) as Hlp by (by apply wf_like).
  destruct (predict_xstart_Ok (self s) x _ t Hr Hlp Ht) as (r & Hpred & Hlr).
  set (xr := if clip then clamp (-1) 1 r else r).
  assert (like xr x) as Hlxr.
  { unfold xr. destruct clip; [|done]. eapply like_trans; [apply clamp_like | done]. }
  assert (forall c, post_coeff_1 c ∈ tables c) as Hf1 by in_tables.
  assert (forall c, post_coeff_2 c ∈ tables c) as Hf2 by in_tables.
  assert (forall c, p_variance c ∈ tables c) as Hf3 by in_tables.
  assert (forall c, p_log_variance c ∈ tables c) as Hf4 by in_tables.
  pose proof (table_extract _ _ _ (length (rows x)) t (shape x) Hr Hf1 Ht)
    as (v1 & H1 & Hl1).
  pose proof (table_extract _ _ _ (length (rows x)) t (shape x) Hr Hf2 Ht)
    as (v2 & H2 & Hl2).
  pose proof (table_extract _ _ _ (length (rows x)) t (shape x) Hr Hf3 Ht)
    as (v3 & H3 & Hl3).
  pose proof (table_extract _ _ _ (length (rows x)) t (shape x) Hr Hf4 Ht)
    as (v4 & H4 & Hl4).
  destruct (col_mul_like (mkVec (device x) v1) xr) as (l & Hcl & Hll & _).
  { simpl. symmetry. apply Hlxr. }
  { simpl. rewrite Hl1. symmetry. by apply like_rows_length. }
  destruct (col_mul_like (mkVec (device x) v2) x) as (q & Hcq & Hlq & _); [done..|].
  destruct (tzip_like Rplus l q) as (pm & Hpm & Hlpm & _).
  { eapply like_trans; [exact Hlq|]. apply like_sym.
    eapply like_trans; [exact Hll | exact Hlxr]. }
  exists pm, (mkVec (device x) v3), (mkVec (device x) v4).
  split; [|split; [|by split]].
  2:{ eapply like_trans; [exact Hlpm|]. eapply like_trans; [exact Hll | exact Hlxr]. }
  unfold get_posterior_mean_covariance, mbind, call_decoder, lift, mret.
  cbn [self decoder_calls randn_calls rng_pos].
  subst t_. rewrite Hpred. fold xr.
  destruct (table (self s) post_coeff_1) as [a1|]; [|discriminate].
  simpl in H1 |- *. rewrite H1. simpl. rewrite Hcl. simpl.
  destruct (table (self s) post_coeff_2) as [a2|]; [|discriminate].
  simpl in H2 |- *. rewrite H2. simpl. rewrite Hcq. simpl.
  unfold tadd. rewrite Hpm.
  rewrite H3, H4. reflexivity.
Qed.

(** The result of [get_posterior_mean_covariance] depends on the object
    only. *)
Lemma get_posterior_self (x : Tensor) (t : Z) (clip : bool) (cond : option Tensor)
    (s s' : St) :
  self s = self s' ->
  fst (get_posterior_mean_covariance x t clip cond s) =
  fst (get_posterior_mean_covariance x t clip cond s').
Proof.
  intros Hs. unfold get_posterior_mean_covariance, mbind, call_decoder, lift, mret.
  cbn [self decoder_calls randn_calls rng_pos]. rewrite Hs.
  repeat match goal with
         | |- context [match ?r with Ok _ => _ | Raise _ => _ end] => destruct r
         end; reflexivity.
Qed.

(** ** The Langevin step *)

Lemma vec_mul_scalar (dev : Device) (k : R) (e : Vec) :
  vdev e = dev ->
  vec_mul (mkVec dev [k]) e = Ok (mkVec dev (map (Rmult k) (vals e))).
Proof.
  intros Hd. unfold vec_mul. simpl. rewrite bool_decide_eq_true_2 by done.
  case_bool_decide as Hl; [|reflexivity].
  destruct (vals e) as [|b [|b' l]]; simpl in *; try lia. reflexivity.
Qed.

Lemma add_zero_row (e : R) (p z : list R) :
  length z = length p -> zip_with Rplus p (map (Rmult (0 * e)) z) = p.
Proof.
  revert z. induction p as [|v p IH]; intros [|w z] Hl; simpl in *; try done.
  f_equal; [ring | apply IH; lia].
Qed.

Lemma add_zero_rows (es : list R) (ps zs : list (list R)) :
  length es = length ps -> map length zs = map length ps ->
  zip_with (zip_with Rplus) ps
    (zip_with (fun k r => map (Rmult k) r) (map (Rmult 0) es) zs) = ps.
Proof.
  revert es zs. induction ps as [|p ps IH]; intros [|e es] [|z zs] Hl Hz;
    simpl in *; try done.
  injection Hz as Hz1 Hz. f_equal; [by apply add_zero_row | apply IH; [lia | done]].
Qed.

Lemma langevin_step_Ok (x_t : Tensor) (t : Z) (pm : Tensor) (plv : Vec) (z : Tensor) :
  like pm x_t -> like z x_t ->
  vdev plv = device x_t -> length (vals plv) = length (rows x_t) ->
  exists x',
    langevin_step (device x_t) t pm plv z = Ok x' /\ like x' x_t /\
    (t = 0%Z -> x' = pm).
Proof.
  intros Hpm Hz Hd Hl. unfold langevin_step, nonzero_mask.
  rewrite vec_mul_scalar by done. simpl.
  set (k := if bool_decide (t ≠ 0%Z) then 1 else 0).
  set (es := map (fun v => exp (0.5 * v)) (vals plv)).
  assert (length es = length (rows x_t)) as Hes by (unfold es; by rewrite length_map).
  destruct (col_mul_like (mkVec (device x_t) (map (Rmult k) es)) z)
    as (n & Hn & Hln & Hrn).
  { simpl. symmetry. apply Hz. }
  { simpl. rewrite length_map, Hes. symmetry. by apply like_rows_length. }
  rewrite Hn. simpl.
  destruct (tzip_like Rplus pm n) as (w & Hw & Hlw & Hdw & Htw & Hrw).
  { eapply like_trans; [exact Hln|]. eapply like_trans; [exact Hz | by apply like_sym]. }
  unfold tadd. exists w. split; [exact Hw|]. split; [by eapply like_trans|].
  intros ->. unfold k in Hrn. rewrite bool_decide_eq_false_2 in Hrn by tauto.
  simpl in Hrn. rewrite Hrn, add_zero_rows in Hrw.
  - destruct w, pm. simpl in *. congruence.
  - rewrite Hes. symmetry. by apply like_rows_length.
  - destruct Hz as (_ & _ & Hz). destruct Hpm as (_ & _ & Hpm). congruence.
Qed.

(** ** The loop body *)

Lemma lengths_rows_seq (g : nat -> nat -> R) (n b i0 : nat) :
  map length (map (fun i : nat => map (g i) (seq 0 n)) (seq i0 b)) = replicate b n.
Proof.
  revert i0. induction b as [|b IH]; intros i0; simpl; [done|].
  by rewrite length_map, length_seq, IH.
Qed.

Section Chain.

Variable noise : nat -> R.

Lemma randn_like_like (x_t : Tensor) (s : St) :
  wf_tensor x_t ->
  exists z,
    randn_like noise x_t s =
      (Ok z, mkSt (self s) (decoder_calls s) (S (randn_calls s))
                  (rng_pos s + length (rows x_t) * numel_row x_t)) /\
    like z x_t.
Proof.
  intros Hwf. eexists. split; [reflexivity|]. repeat split. simpl.
  rewrite (lengths_replicate _ _ Hwf). apply lengths_rows_seq.
Qed.

(** One pass through the loop body succeeds, evaluates the decoder once,
    draws one noise tensor, and keeps device and shape; at [t = 0] the new
    value is the posterior mean. *)
Lemma sample_step_Ok (x_t : Tensor) (cond : option Tensor) (x : Tensor) (t : Z)
    (s : St) :
  ready (self s) (device x_t) -> decoder_contract (decoder (self s)) ->
  wf_tensor x_t -> like x x_t -> (0 <= t < T (self s))%Z ->
  exists x' pm pv plv,
    fst (get_posterior_mean_covariance x t true cond s) = Ok (pm, pv, plv) /\
    sample_step noise x_t cond x t s =
      (Ok x',
       mkSt (self s) (S (decoder_calls s)) (S (randn_calls s))
            (rng_pos s + length (rows x_t) * numel_row x_t)) /\
    like x' x_t /\
    (t = 0%Z -> x' = pm).
Proof.
  intros Hr Hdec Hwf Hl Ht.
  destruct (randn_like_like x_t s Hwf) as (z & Hz & Hlz).
  set (s1 := mkSt (self s) (decoder_calls s) (S (randn_calls s))
                  (rng_pos s + length (rows x_t) * numel_row x_t)) in *.
  assert (device x = device x_t) as Hdx by apply Hl.
  destruct (get_posterior_Ok x t true cond s1) as (pm & pv & plv & Hgp & Hlpm & Hdp & Hlp).
  { simpl. by rewrite Hdx. }
  { done. }
  { by eapply like_wf. }
  { done. }
  destruct (langevin_step_Ok x_t t pm plv z) as (x' & Hx' & Hlx' & Hterm).
  { by eapply like_trans. }
  { done. }
  { congruence. }
  { rewrite Hlp. by apply like_rows_length. }
  exists x', pm, pv, plv. split; [|split; [|by split]].
  - rewrite (get_posterior_self x t true cond s s1) by done. by rewrite Hgp.
  - unfold sample_step, mbind. rewrite Hz, Hgp. unfold lift. by rewrite Hx'.
Qed.

End Chain.

(** ** The loop and its checkpoints *)

Lemma elem_of_keys_from (cps : PyInts) (i0 len : nat) (key : string) :
  key ∈ keys_from cps i0 len <->
  exists j, (i0 <= j < i0 + len)%nat /\ py_in (Z.of_nat j + 1) cps = true /\
            key = pretty (Z.of_nat j + 1)%Z.
Proof.
  revert i0. induction len as [|len IH]; intros i0; simpl.
  - split; [set_solver | intros (j & ? & _); lia].
  - rewrite elem_of_union, IH. split.
    + intros [Hk | (j & Hj & Hin & ->)].
      * destruct (py_in (Z.of_nat i0 + 1) cps) eqn:Hin; [|set_solver].
        apply elem_of_singleton in Hk. exists i0. repeat split; [lia..|done|done].
      * exists j. repeat split; [lia..|done].
    + intros (j & Hj & Hin & ->).
      destruct (decide (j = i0)) as [->|Hne].
      * left. rewrite Hin. by apply elem_of_singleton.
      * right. exists j. repeat split; [lia..|done].
Qed.

Lemma key_not_later (cps : PyInts) (i i0 len : nat) :
  (i < i0)%nat -> pretty (Z.of_nat i + 1)%Z ∉ keys_from cps i0 len.
Proof.
  intros Hi. rewrite elem_of_keys_from. intros (j & Hj & _ & Heq).
  apply (inj pretty) in Heq. lia.
Qed.

Section Loop.

Variable noise : nat -> R.
Variable x_t : Tensor.
Variable cond : option Tensor.
Variable cps : PyInts.

Hypothesis x_t_wf : wf_tensor x_t.

Lemma sample_loop_spec (ts : list Z) :
  forall (i0 : nat) (x : Tensor) (d : gmap string Tensor) (s : St),
    ready (self s) (device x_t) -> decoder_contract (decoder (self s)) ->
    like x x_t -> Forall (fun t => (0 <= t < T (self s))%Z) ts ->
    exists d' xf,
      let s' := mkSt (self s) (decoder_calls s + length ts)
                     (randn_calls s + length ts)
                     (rng_pos s + length ts * (length (rows x_t) * numel_row x_t)) in
      sample_loop noise x_t cond cps (zip (seq i0 (length ts)) ts) x d s = (Ok d', s') /\
      run_steps noise x_t cond ts x s = (Ok xf, s') /\
      dom d' = dom d ∪ keys_from cps i0 (length ts) /\
      (forall j, (j < length ts)%nat -> py_in (Z.of_nat (i0 + j) + 1) cps = true ->
         exists xj sj,
           run_steps noise x_t cond (take (S j) ts) x s = (Ok xj, sj) /\
           d' !! pretty (Z.of_nat (i0 + j) + 1)%Z = Some xj) /\
      (forall key, key ∉ keys_from cps i0 (length ts) -> d' !! key = d !! key).
Proof.
  induction ts as [|t ts IH]; intros i0 x d s Hr Hdec Hl Hts.
  - exists d, x. simpl. rewrite !Nat.add_0_r. destruct s. simpl.
    repeat split; [set_solver | intros j Hj; lia].
  - inversion Hts as [|? ? Ht Hts']; subst.
    destruct (sample_step_Ok noise x_t cond x t s Hr Hdec x_t_wf Hl Ht)
      as (x' & pm & pv & plv & _ & Hstep & Hl' & _).
    set (s1 := mkSt (self s) (S (decoder_calls s)) (S (randn_calls s))
                    (rng_pos s + length (rows x_t) * numel_row x_t)) in *.
    set (k := (Z.of_nat i0 + 1)%Z).
    set (d1 := if py_in k cps then <[pretty k := x']> d else d).
    destruct (IH (S i0) x' d1 s1 Hr Hdec Hl' Hts')
      as (d' & xf & Hloop & Hrun & Hdom & Hhit & Hother).
    exists d', xf.
    assert (mkSt (self s1) (decoder_calls s1 + length ts) (randn_calls s1 + length ts)
              (rng_pos s1 + length ts * (length (rows x_t) * numel_row x_t)) =
            mkSt (self s) (decoder_calls s + length (t :: ts))
              (randn_calls s + length (t :: ts))
              (rng_pos s + length (t :: ts) * (length (rows x_t) * numel_row x_t)))
      as Hs' by (simpl; f_equal; lia).
    cbv zeta in *. rewrite Hs' in Hloop, Hrun.
    split; [|split; [|split; [|split]]].
    + simpl. unfold mbind. rewrite Hstep. exact Hloop.
    + simpl. unfold mbind. rewrite Hstep. exact Hrun.
    + rewrite Hdom. simpl. fold k. unfold d1.
      destruct (py_in k cps); [rewrite dom_insert_L|]; set_solver.
    + intros [|j] Hj Hin.
      * exists x', s1. split.
        { simpl. unfold mbind. rewrite Hstep. reflexivity. }
        rewrite Nat.add_0_r. fold k.
        rewrite Hother by (apply key_not_later; lia).
        unfold d1. rewrite Nat.add_0_r in Hin. fold k in Hin. rewrite Hin.
        apply lookup_insert_eq.
      * simpl in Hj.
        destruct (Hhit j) as (xj & sj & Hrj & Hdj); [lia | |].
        { by replace (S i0 + j)%nat with (i0 + S j)%nat by lia. }
        exists xj, sj. split.
        { simpl. unfold mbind. rewrite Hstep. exact Hrj. }
        by replace (i0 + S j)%nat with (S i0 + j)%nat by lia.
    + intros key Hkey. simpl in Hkey. fold k in Hkey.
      rewrite Hother by set_solver. unfold d1.
      destruct (py_in k cps); [|done].
      apply lookup_insert_ne. set_solver.
Qed.

End Loop.

(** ** The lazy setup *)

Lemma ensure_consts_usable (dev : Device) (s : St) :
  usable (self s) dev ->
  exists s0,
    ensure_consts dev s = (Ok tt, s0) /\
    ready (self s0) dev /\
    setup_consts (self s0) = true /\
    decoder (self s0) = decoder (self s) /\
    T (self s0) = T (self s) /\
    decoder_calls s0 = decoder_calls s /\
    randn_calls s0 = randn_calls s /\
    rng_pos s0 = rng_pos s.
Proof.
  intros (c & Hc & Hflag). unfold ensure_consts.
  destruct (setup_consts (self s)) eqn:Hf.
  - exists s. repeat split; try done. exists c. split; [by apply Hflag | done].
  - unfold setup_precomputed_const. rewrite Hc. simpl.
    eexists. split; [reflexivity|]. simpl. repeat split; try done.
    exists c. split; [done | exact Hc].
Qed.

(** A set flag makes [ensure_consts] do nothing, whatever the device. *)
Lemma ensure_consts_cached (dev : Device) (s : St) :
  setup_consts (self s) = true -> ensure_consts dev s = (Ok tt, s).
Proof. intros Hf. unfold ensure_consts. by rewrite Hf. Qed.

(** ** [reversed(range(0, n))] *)

Lemma length_reversed_range (n : Z) : length (reversed_range n) = Z.to_nat n.
Proof. unfold reversed_range. by rewrite length_map, length_seq. Qed.

Lemma reversed_range_bounds (n bound : Z) :
  (n <= bound)%Z -> Forall (fun t => (0 <= t < bound)%Z) (reversed_range n).
Proof.
  intros Hn. unfold reversed_range. apply Forall_fmap, Forall_forall.
  intros i Hi. apply elem_of_seq in Hi. simpl. lia.
Qed.

Lemma reversed_range_lookup (n : Z) (i : nat) :
  (Z.of_nat i < n)%Z -> reversed_range n !! i = Some (n - 1 - Z.of_nat i)%Z.
Proof.
  intros Hi. unfold reversed_range.
  rewrite list_lookup_fmap, lookup_seq_lt by lia. reflexivity.
Qed.

(** The last timestep of a non-empty chain is 0. *)
Lemma reversed_range_last (n : Z) :
  (1 <= n)%Z -> last (reversed_range n) = Some 0%Z.
Proof.
  intros Hn. rewrite last_lookup, length_reversed_range.
  rewrite reversed_range_lookup by lia. f_equal. lia.
Qed.

(** ** [sample] on a usable model *)

Section Sample.

Variable noise : nat -> R.
Variable x_t : Tensor.
Variable cond : option Tensor.

Hypothesis x_t_wf : wf_tensor x_t.

Lemma sample_spec (n_steps : option Z) (cps : PyInts) (s : St) :
  usable (self s) (device x_t) -> decoder_contract (decoder (self s)) ->
  (steps_of (self s) n_steps <= T (self s))%Z ->
  exists s0 d xf,
    let ts := reversed_range (steps_of (self s) n_steps) in
    let cps' := checkpoints_of (self s) n_steps cps in
    let s' := mkSt (self s0) (decoder_calls s + length ts)
                   (randn_calls s + length ts)
                   (rng_pos s + length ts * (length (rows x_t) * numel_row x_t)) in
    ensure_consts (device x_t) s = (Ok tt, s0) /\
    sample noise x_t cond n_steps cps s = (Ok d, s') /\
    run_steps noise x_t cond ts x_t s0 = (Ok xf, s') /\
    dom d = keys_from cps' 0 (length ts) /\
    (forall j, (j < length ts)%nat -> py_in (Z.of_nat j + 1) cps' = true ->
       exists xj sj,
         run_steps noise x_t cond (take (S j) ts) x_t s0 = (Ok xj, sj) /\
         d !! pretty (Z.of_nat j + 1)%Z = Some xj).
Proof.
  intros Hu Hdec Hn.
  destruct (ensure_consts_usable _ _ Hu)
    as (s0 & Hens & Hr & _ & Hd0 & HT0 & Hdc & Hrc & Hpos).
  assert (steps_of (self s0) n_steps = steps_of (self s) n_steps) as Hsteps
    by (unfold steps_of; by rewrite HT0).
  destruct (sample_loop_spec noise x_t cond
              (checkpoints_of (self s) n_steps cps) x_t_wf
              (reversed_range (steps_of (self s) n_steps)) 0%nat x_t ∅ s0)
    as (d & xf & Hloop & Hrun & Hdom & Hhit & _).
  { done. }
  { by rewrite Hd0. }
  { apply like_refl. }
  { rewrite HT0. by apply reversed_range_bounds. }
  exists s0, d, xf. cbv zeta in *. rewrite Hdc, Hrc, Hpos in Hloop, Hrun.
  split; [exact Hens|]. split; [|split; [exact Hrun|split]].
  - unfold sample, mbind, get_self. rewrite Hens.
    fold (steps_of (self s0) n_steps). rewrite Hsteps.
    fold (checkpoints_of (self s) n_steps cps). exact Hloop.
  - rewrite Hdom, dom_empty_L. set_solver.
  - intros j Hj Hin. by apply (Hhit j).
Qed.

End Sample.

Lemma usable_fresh (m : DDPM) (dev : Device) :
  setup_consts m = false -> (2 <= T m)%Z -> valid_var_type (var_type m) ->
  usable m dev.
Proof.
  intros Hf HT Hvt. destruct (build_consts_Ok m dev HT Hvt) as [c Hc].
  exists c. split; [done | congruence].
Qed.

Lemma usable_T (m : DDPM) (dev : Device) : usable m dev -> (2 <= T m)%Z.
Proof. intros (c & Hc & _). by eapply build_consts_T. Qed.

Lemma ex_model_usable : usable ex_model Cpu.
Proof. eexists. split; [reflexivity | discriminate]. Qed.

Lemma ex_decoder_contract : decoder_contract (decoder ex_model).
Proof. intros x t cond Hwf. simpl. done. Qed.

Lemma ex_x_wf : wf_tensor ex_x.
Proof. repeat constructor. Qed.

(** Without at least two timesteps and a known variance type no schedule
    is built. *)
Lemma build_consts_Raise (m : DDPM) (dev : Device) :
  ~ ((2 <= T m)%Z /\ valid_var_type (var_type m)) ->
  exists e, build_consts m dev = Raise e.
Proof.
  intros Hn. destruct (build_consts m dev) as [c|e] eqn:Hc; [|by exists e].
  exfalso. apply Hn. split; [by eapply build_consts_T|].
  destruct (build_consts_inv _ _ _ Hc) as (bs & pv1 & sel & _ & _ & Hsel & _).
  apply select_variance_inv in Hsel as [[Hvt _] | [Hvt _]]; [by left | by right].
Qed.

(** C10 as stated fails: on a fresh object with [T = 1] the call with
    [n_steps = 0] raises the [IndexError] of [setup_precomputed_const]. *)
Lemma sample_zero_steps_T1_raises :
  fst (sample (fun _ => 0) ex_x None (Some 0%Z) (PyList [])
         (mkSt (init (fun x _ _ => x) (1/10000) (1/50) 1 "fixedlarge") 0 0 0))
    = Raise IndexError.
Proof. reflexivity. Qed.

(** C10, as the code has it: with [n_steps = 0] the loop body never runs,
    the decoder is not evaluated and no noise is drawn, although the
    defaulted checkpoint list is [[0]].  The call returns the empty
    mapping when the flag [setup_consts] is set (nothing is built) and
    when the schedule can be built (at least two timesteps and a known
    variance type); otherwise the schedule is still to be built and
    cannot be, and the call raises the error of
    [setup_precomputed_const]. *)
Theorem sample_zero_steps (noise : nat -> R) (x_t : Tensor) (cond : option Tensor)
    (cps : PyInts) (s : St) :
  (setup_consts (self s) = true ->
     sample noise x_t cond (Some 0%Z) cps s = (Ok ∅, s)) /\
  (setup_consts (self s) = false ->
   (2 <= T (self s))%Z -> valid_var_type (var_type (self s)) ->
     exists c s',
       build_consts (self s) (device x_t) = Ok c /\
       sample noise x_t cond (Some 0%Z) cps s = (Ok ∅, s') /\
       consts (self s') = Some c /\
       setup_consts (self s') = true /\
       decoder_calls s' = decoder_calls s /\
       randn_calls s' = randn_calls s /\
       rng_pos s' = rng_pos s) /\
  (setup_consts (self s) = false ->
   ~ ((2 <= T (self s))%Z /\ valid_var_type (var_type (self s))) ->
     exists e,
       build_consts (self s) (device x_t) = Raise e /\
       fst (sample noise x_t cond (Some 0%Z) cps s) = Raise e /\
       decoder_calls (snd (sample noise x_t cond (Some 0%Z) cps s))
         = decoder_calls s /\
       randn_calls (snd (sample noise x_t cond (Some 0%Z) cps s))
         = randn_calls s /\
       rng_pos (snd (sample noise x_t cond (Some 0%Z) cps s)) = rng_pos s) /\
  checkpoints_of (self s) (Some 0%Z) (PyList []) = PyList [0%Z].
Proof.
  split; [|split; [|split]].
  - intros Hf. unfold sample, mbind, get_self.
    by rewrite (ensure_consts_cached _ _ Hf).
  - intros Hf HT Hvt.
    destruct (build_consts_Ok (self s) (device x_t) HT Hvt) as [c Hc].
    exists c. eexists. split; [exact Hc|]. split.
    { unfold sample, mbind, get_self, ensure_consts, setup_precomputed_const.
      rewrite Hf, Hc. reflexivity. }
    by simpl.
  - intros Hf Hn. destruct (build_consts_Raise _ (device x_t) Hn) as [e He].
    exists e. split; [exact He|].
    unfold sample, mbind, ensure_consts, setup_precomputed_const.
    by rewrite Hf, He.
  - reflexivity.
Qed.

(** C10 on the example model, whose schedule is still to be built. *)
Lemma sample_zero_steps_witness :
  exists c s',
    build_consts (self ex_state) (device ex_x) = Ok c /\
    sample (fun _ => 0) ex_x None (Some 0%Z) (PyList []) ex_state = (Ok ∅, s') /\
    consts (self s') = Some c /\
    setup_consts (self s') = true /\
    decoder_calls s' = decoder_calls ex_state /\
    randn_calls s' = randn_calls ex_state /\
    rng_pos s' = rng_pos ex_state.
Proof.
  apply (sample_zero_steps (fun _ => 0) ex_x None (PyList []) ex_state).
  - reflexivity.
  - simpl. lia.
  - by left.
Defined.

(** C2: [sample] with [n_steps = 1] evaluates the decoder once and returns,
    under the key ["1"], exactly the posterior mean of [x_t] at [t = 0];
    the noise mask at [t = 0] is 0; and at [t = 0] the loop body maps any
    state of the chain to its posterior mean. *)
Theorem sample_single_step (noise : nat -> R) (x_t : Tensor) (cond : option Tensor)
    (s : St) :
  wf_tensor x_t -> usable (self s) (device x_t) ->
  decoder_contract (decoder (self s)) ->
  exists s0 pm pv plv s',
    ensure_consts (device x_t) s = (Ok tt, s0) /\
    fst (get_posterior_mean_covariance x_t 0 true cond s0) = Ok (pm, pv, plv) /\
    sample noise x_t cond (Some 1%Z) (PyList []) s = (Ok {[ "1"%string := pm ]}, s') /\
    decoder_calls s' = S (decoder_calls s) /\
    nonzero_mask (device x_t) 0 = mkVec (device x_t) [0] /\
    (forall x s1,
       ready (self s1) (device x_t) -> decoder_contract (decoder (self s1)) ->
       like x x_t ->
       exists pm' pv' plv' s2,
         fst (get_posterior_mean_covariance x 0 true cond s1) = Ok (pm', pv', plv') /\
         sample_step noise x_t cond x 0 s1 = (Ok pm', s2)).
Proof.
  intros Hwf Hu Hdec.
  destruct (ensure_consts_usable _ _ Hu)
    as (s0 & Hens & Hr & _ & Hd0 & HT0 & Hdc & Hrc & Hpos).
  assert (forall s1, ready (self s1) (device x_t) -> (0 <= 0 < T (self s1))%Z) as Hzero.
  { intros s1 (c & _ & Hc). apply build_consts_T in Hc. lia. }
  destruct (sample_step_Ok noise x_t cond x_t 0 s0) as
    (x' & pm & pv & plv & Hgp & Hstep & _ & Hterm);
    [done | by rewrite Hd0 | done | apply like_refl | by apply Hzero |].
  rewrite Hterm in Hstep by done.
  exists s0, pm, pv, plv. eexists. split; [exact Hens|]. split; [exact Hgp|].
  split; [|split; [|split; [reflexivity|]]].
  - unfold sample, mbind, get_self. rewrite Hens.
    change (enumerate (reversed_range 1)) with [(0%nat, 0%Z)].
    cbn [sample_loop]. unfold mbind. rewrite Hstep. reflexivity.
  - simpl. by rewrite Hdc.
  - intros x s1 Hr1 Hdec1 Hl.
    destruct (sample_step_Ok noise x_t cond x 0 s1) as
      (x1 & pm' & pv' & plv' & Hgp' & Hstep' & _ & Hterm');
      [done | done | done | done | by apply Hzero |].
    rewrite Hterm' in Hstep' by done. by exists pm', pv', plv'; eexists.
Qed.

(** C2 on the example model. *)
Lemma sample_single_step_witness :
  exists s0 pm pv plv s',
    ensure_consts (device ex_x) ex_state = (Ok tt, s0) /\
    fst (get_posterior_mean_covariance ex_x 0 true None s0) = Ok (pm, pv, plv) /\
    sample (fun _ => 0) ex_x None (Some 1%Z) (PyList []) ex_state =
      (Ok {[ "1"%string := pm ]}, s') /\
    decoder_calls s' = S (decoder_calls ex_state) /\
    nonzero_mask (device ex_x) 0 = mkVec (device ex_x) [0] /\
    (forall x s1,
       ready (self s1) (device ex_x) -> decoder_contract (decoder (self s1)) ->
       like x ex_x ->
       exists pm' pv' plv' s2,
         fst (get_posterior_mean_covariance x 0 true None s1) = Ok (pm', pv', plv') /\
         sample_step (fun _ => 0) ex_x None x 0 s1 = (Ok pm', s2)).
Proof.
  apply (sample_single_step (fun _ => 0) ex_x None ex_state).
  - repeat constructor.
  - eexists. split; [reflexivity | discriminate].
  - intros x t cond Hwf. simpl. done.
Defined.

(** The key of the last step is written exactly when the last step count
    is a checkpoint. *)
Lemma last_key_in_keys (cps : PyInts) (n : Z) :
  (1 <= n)%Z ->
  pretty n ∈ keys_from cps 0 (Z.to_nat n) <-> py_in n cps = true.
Proof.
  intros Hn. rewrite elem_of_keys_from. split.
  - intros (j & Hj & Hin & Heq). apply (inj pretty) in Heq. by subst n.
  - intros Hin. exists (Z.to_nat (n - 1)).
    replace (Z.of_nat (Z.to_nat (n - 1)) + 1)%Z with n by lia.
    split; [lia|]. by split.
Qed.

Lemma keys_from_default (n : Z) :
  (1 <= n)%Z -> keys_from (PyList [n]) 0 (Z.to_nat n) = {[ pretty n ]}.
Proof.
  intros Hn. apply set_eq. intros key.
  rewrite elem_of_keys_from, elem_of_singleton. split.
  - intros (j & Hj & Hin & ->). simpl in Hin. apply bool_decide_eq_true in Hin.
    apply list_elem_of_singleton in Hin. by rewrite Hin.
  - intros ->. exists (Z.to_nat (n - 1)).
    replace (Z.of_nat (Z.to_nat (n - 1)) + 1)%Z with n by lia.
    split; [lia|]. split; [|done]. simpl. apply bool_decide_eq_true.
    by apply list_elem_of_singleton.
Qed.

(** C3: [sample(x, checkpoints={1,5,10}, n_steps=10)] returns a mapping
    with exactly the keys ["1"], ["5"], ["10"], each bound to the state of
    the chain after that many passes through the loop body (the first
    pass is step 1); and without checkpoints the mapping is the final
    state alone, under the key of the number of steps. *)
Theorem sample_checkpoints (noise : nat -> R) (x_t : Tensor) (cond : option Tensor)
    (s : St) :
  wf_tensor x_t -> usable (self s) (device x_t) ->
  decoder_contract (decoder (self s)) ->
  exists s0,
    ensure_consts (device x_t) s = (Ok tt, s0) /\
    ((10 <= T (self s))%Z ->
     exists d s',
       sample noise x_t cond (Some 10%Z) (PySet {[1; 5; 10]}%Z) s = (Ok d, s') /\
       dom d = {[ "1"; "5"; "10" ]}%string /\
       (forall k : nat, k ∈ [1; 5; 10]%nat ->
          exists xk sk,
            run_steps noise x_t cond (take k (reversed_range 10)) x_t s0 = (Ok xk, sk) /\
            d !! pretty (Z.of_nat k) = Some xk)) /\
    (forall n_steps,
       (1 <= steps_of (self s) n_steps <= T (self s))%Z ->
       exists xf s',
         sample noise x_t cond n_steps (PyList []) s =
           (Ok {[ pretty (steps_of (self s) n_steps) := xf ]}, s') /\
         run_steps noise x_t cond (reversed_range (steps_of (self s) n_steps)) x_t s0
           = (Ok xf, s')).
Proof.
  intros Hwf Hu Hdec.
  destruct (ensure_consts_usable _ _ Hu) as (s0 & Hens & _).
  exists s0. split; [exact Hens|]. split.
  - intros HT.
    destruct (sample_spec noise x_t cond Hwf (Some 10%Z) (PySet {[1; 5; 10]}%Z) s
                Hu Hdec HT) as (s0' & d & xf & Hens' & Hsample & _ & Hdom & Hhit).
    cbv zeta in *. rewrite Hens in Hens'. injection Hens' as <-.
    exists d. eexists. split; [exact Hsample|]. split.
    + rewrite Hdom. reflexivity.
    + intros k Hk.
      assert (exists j, k = S j /\ (j < 10)%nat) as (j & -> & Hj).
      { repeat (apply elem_of_cons in Hk as [-> | Hk]; [eexists; split; [reflexivity | lia]|]).
        by apply elem_of_nil in Hk. }
      destruct (Hhit j) as (xj & sj & Hrun & Hd).
      { rewrite length_reversed_range. simpl. lia. }
      { repeat (apply elem_of_cons in Hk as [Hk | Hk];
                [injection Hk as ->; reflexivity|]).
        by apply elem_of_nil in Hk. }
      exists xj, sj. split; [exact Hrun|].
      by replace (Z.of_nat (S j)) with (Z.of_nat j + 1)%Z by lia.
  - intros n_steps Hn.
    destruct (sample_spec noise x_t cond Hwf n_steps (PyList []) s Hu Hdec)
      as (s0' & d & xf & Hens' & Hsample & Hrun & Hdom & Hhit); [lia|].
    cbv zeta in *. rewrite Hens in Hens'. injection Hens' as <-.
    set (n := steps_of (self s) n_steps) in *.
    rewrite length_reversed_range in *.
    change (checkpoints_of (self s) n_steps (PyList [])) with (PyList [n]) in *.
    rewrite keys_from_default in Hdom by lia.
    destruct (Hhit (Z.to_nat (n - 1))) as (xj & sj & Hrunj & Hd); [lia | |].
    { simpl. apply bool_decide_eq_true, list_elem_of_singleton. lia. }
    replace (Z.of_nat (Z.to_nat (n - 1)) + 1)%Z with n in Hd by lia.
    rewrite take_ge in Hrunj by (rewrite length_reversed_range; lia).
    rewrite Hrunj in Hrun. injection Hrun as <- ->.
    apply dom_singleton_inv_L in Hdom as [v ->].
    rewrite lookup_singleton_eq in Hd. injection Hd as ->.
    eexists _, _. split; [exact Hsample | exact Hrunj].
Qed.

(** C3 on the model with ten timesteps: the three checkpoints, and the
    default for [n_steps = None]. *)
Lemma sample_checkpoints_witness :
  exists s0 d s' xf s'',
    ensure_consts (device ex_x) ex_state10 = (Ok tt, s0) /\
    sample (fun _ => 0) ex_x None (Some 10%Z) (PySet {[1; 5; 10]}%Z) ex_state10
      = (Ok d, s') /\
    dom d = {[ "1"; "5"; "10" ]}%string /\
    (forall k : nat, k ∈ [1; 5; 10]%nat ->
       exists xk sk,
         run_steps (fun _ => 0) ex_x None (take k (reversed_range 10)) ex_x s0
           = (Ok xk, sk) /\
         d !! pretty (Z.of_nat k) = Some xk) /\
    sample (fun _ => 0) ex_x None None (PyList []) ex_state10 =
      (Ok {[ "10"%string := xf ]}, s'') /\
    run_steps (fun _ => 0) ex_x None (reversed_range 10) ex_x s0 = (Ok xf, s'').
Proof.
  destruct (sample_checkpoints (fun _ => 0) ex_x None ex_state10)
    as (s0 & Hens & Hcps & Hdefault).
  - repeat constructor.
  - eexists. split; [reflexivity | discriminate].
  - intros x t cond Hwf. simpl. done.
  - destruct Hcps as (d & s' & Hsample & Hdom & Hstates); [simpl; lia|].
    destruct (Hdefault None) as (xf & s'' & Hsample' & Hrun); [simpl; lia|].
    exists s0, d, s', xf, s''. auto 10.
Defined.

(** C7 as stated fails: with [checkpoints = {1}] and two steps the mapping
    has the key ["1"] only; the state after the last step is not in it. *)
Lemma sample_without_final_entry :
  exists d s',
    sample (fun _ => 0) ex_x None (Some 2%Z) (PySet {[1%Z]}) ex_state = (Ok d, s') /\
    dom d = {[ "1"%string ]} /\
    d !! "2"%string = None.
Proof.
  destruct (sample_spec (fun _ => 0) ex_x None ex_x_wf (Some 2%Z) (PySet {[1%Z]})
              ex_state ex_model_usable ex_decoder_contract)
    as (s0 & d & xf & _ & Hsample & _ & Hdom & _); [simpl; lia|].
  cbv zeta in Hsample, Hdom. exists d. eexists. split; [exact Hsample|].
  assert (dom d = {[ "1"%string ]}) as Hd by (rewrite Hdom; reflexivity).
  split; [exact Hd|]. apply not_elem_of_dom. rewrite Hd.
  intros Hin. apply elem_of_singleton in Hin. discriminate Hin.
Qed.

(** C7, as the code has it: a call with [1 <= n_steps <= T] runs the loop
    body [n_steps] times, the last time for [t = 0], and returns; the
    state after the last step is in the mapping, under the key of
    [n_steps], exactly when [n_steps] is in the checkpoints the call works
    with (as it is when none are passed). *)
Theorem sample_final_entry (noise : nat -> R) (x_t : Tensor) (cond : option Tensor)
    (n_steps : option Z) (cps : PyInts) (s : St) :
  wf_tensor x_t -> usable (self s) (device x_t) ->
  decoder_contract (decoder (self s)) ->
  (1 <= steps_of (self s) n_steps <= T (self s))%Z ->
  exists s0 d xf s',
    ensure_consts (device x_t) s = (Ok tt, s0) /\
    sample noise x_t cond n_steps cps s = (Ok d, s') /\
    run_steps noise x_t cond (reversed_range (steps_of (self s) n_steps)) x_t s0
      = (Ok xf, s') /\
    last (reversed_range (steps_of (self s) n_steps)) = Some 0%Z /\
    decoder_calls s' = (decoder_calls s + Z.to_nat (steps_of (self s) n_steps))%nat /\
    (py_in (steps_of (self s) n_steps) (checkpoints_of (self s) n_steps cps) = true ->
       d !! pretty (steps_of (self s) n_steps) = Some xf) /\
    (py_in (steps_of (self s) n_steps) (checkpoints_of (self s) n_steps cps) = false ->
       d !! pretty (steps_of (self s) n_steps) = None) /\
    checkpoints_of (self s) n_steps (PyList []) = PyList [steps_of (self s) n_steps].
Proof.
  intros Hwf Hu Hdec Hn.
  destruct (sample_spec noise x_t cond Hwf n_steps cps s Hu Hdec)
    as (s0 & d & xf & Hens & Hsample & Hrun & Hdom & Hhit); [lia|].
  cbv zeta in *. set (n := steps_of (self s) n_steps) in *.
  rewrite length_reversed_range in *.
  exists s0, d, xf. eexists. split; [exact Hens|]. split; [exact Hsample|].
  split; [exact Hrun|]. split; [by apply reversed_range_last; lia|].
  split; [reflexivity|]. split; [|split; [|reflexivity]].
  - intros Hin.
    destruct (Hhit (Z.to_nat (n - 1))) as (xj & sj & Hrunj & Hd); [lia | |].
    { by replace (Z.of_nat (Z.to_nat (n - 1)) + 1)%Z with n by lia. }
    replace (Z.of_nat (Z.to_nat (n - 1)) + 1)%Z with n in Hd by lia.
    rewrite take_ge in Hrunj by (rewrite length_reversed_range; lia).
    rewrite Hrunj in Hrun. by injection Hrun as <- _.
  - intros Hin. apply not_elem_of_dom. rewrite Hdom, last_key_in_keys by lia.
    by rewrite Hin.
Qed.

(** C7 on the example model, for two steps and [checkpoints = [2, 1]]. *)
Lemma sample_final_entry_witness :
  exists s0 d xf s',
    ensure_consts (device ex_x) ex_state = (Ok tt, s0) /\
    sample (fun _ => 0) ex_x None (Some 2%Z) (PyList [2; 1]%Z) ex_state = (Ok d, s') /\
    run_steps (fun _ => 0) ex_x None
      (reversed_range (steps_of (self ex_state) (Some 2%Z))) ex_x s0 = (Ok xf, s') /\
    last (reversed_range (steps_of (self ex_state) (Some 2%Z))) = Some 0%Z /\
    decoder_calls s' =
      (decoder_calls ex_state + Z.to_nat (steps_of (self ex_state) (Some 2%Z)))%nat /\
    (py_in (steps_of (self ex_state) (Some 2%Z))
       (checkpoints_of (self ex_state) (Some 2%Z) (PyList [2; 1]%Z)) = true ->
       d !! pretty (steps_of (self ex_state) (Some 2%Z)) = Some xf) /\
    (py_in (steps_of (self ex_state) (Some 2%Z))
       (checkpoints_of (self ex_state) (Some 2%Z) (PyList [2; 1]%Z)) = false ->
       d !! pretty (steps_of (self ex_state) (Some 2%Z)) = None) /\
    checkpoints_of (self ex_state) (Some 2%Z) (PyList []) =
      PyList [steps_of (self ex_state) (Some 2%Z)].
Proof.
  apply (sample_final_entry (fun _ => 0) ex_x None (Some 2%Z) (PyList [2; 1]%Z) ex_state).
  - repeat constructor.
  - eexists. split; [reflexivity | discriminate].
  - intros x t cond Hwf. simpl. done.
  - simpl. lia.
Defined.

(** ** Determinism of the chain *)

Lemma get_posterior_state (x : Tensor) (t : Z) (clip : bool) (cond : option Tensor)
    (s : St) :
  self (snd (get_posterior_mean_covariance x t clip cond s)) = self s /\
  rng_pos (snd (get_posterior_mean_covariance x t clip cond s)) = rng_pos s.
Proof.
  unfold get_posterior_mean_covariance, mbind, call_decoder, lift, mret.
  cbn [self decoder_calls randn_calls rng_pos].
  repeat match goal with
         | |- context [match ?r with Ok _ => _ | Raise _ => _ end] => destruct r
         end; by split.
Qed.

Section Determinism.

Variables noise1 noise2 : nat -> R.
Variable x_t : Tensor.
Variable cond : option Tensor.
Variable cps : PyInts.

Lemma randn_like_agree (s1 s2 : St) :
  (forall i, (i < draw_size x_t)%nat -> noise1 (rng_pos s1 + i) = noise2 (rng_pos s2 + i)) ->
  fst (randn_like noise1 x_t s1) = fst (randn_like noise2 x_t s2).
Proof.
  intros Hag. unfold randn_like. simpl. do 2 f_equal.
  apply list_fmap_ext. intros k i Hi. apply list_fmap_ext. intros k' j Hj.
  apply lookup_seq in Hi as [-> Hi]. apply lookup_seq in Hj as [-> Hj].
  simpl. rewrite <- !Nat.add_assoc. apply Hag. unfold draw_size. nia.
Qed.

Lemma sample_step_agree (x : Tensor) (t : Z) (s1 s2 : St) :
  self s1 = self s2 ->
  (forall i, (i < draw_size x_t)%nat -> noise1 (rng_pos s1 + i) = noise2 (rng_pos s2 + i)) ->
  fst (sample_step noise1 x_t cond x t s1) = fst (sample_step noise2 x_t cond x t s2) /\
  self (snd (sample_step noise1 x_t cond x t s1)) =
    self (snd (sample_step noise2 x_t cond x t s2)) /\
  rng_pos (snd (sample_step noise1 x_t cond x t s1)) = (rng_pos s1 + draw_size x_t)%nat /\
  rng_pos (snd (sample_step noise2 x_t cond x t s2)) = (rng_pos s2 + draw_size x_t)%nat.
Proof.
  intros Hself Hag. pose proof (randn_like_agree s1 s2 Hag) as Hz.
  unfold sample_step, mbind.
  destruct (randn_like noise1 x_t s1) as [r1 s1'] eqn:H1.
  destruct (randn_like noise2 x_t s2) as [r2 s2'] eqn:H2.
  unfold randn_like in H1, H2. simpl in Hz. subst r2.
  injection H1 as <- <-. injection H2 as _ <-.
  match goal with
  | |- context [get_posterior_mean_covariance x t true cond ?a] => set (a1 := a)
  end.
  match goal with
  | |- context [get_posterior_mean_covariance x t true cond
                  (mkSt (self s2) ?a ?b ?c)] => set (a2 := mkSt (self s2) a b c)
  end.
  pose proof (get_posterior_self x t true cond a1 a2 Hself) as Hgp.
  destruct (get_posterior_state x t true cond a1) as [Hs1 Hp1].
  destruct (get_posterior_state x t true cond a2) as [Hs2 Hp2].
  destruct (get_posterior_mean_covariance x t true cond a1) as [g1 b1].
  destruct (get_posterior_mean_covariance x t true cond a2) as [g2 b2].
  simpl in Hgp, Hs1, Hs2, Hp1, Hp2. subst g2.
  destruct g1 as [[[pm pv] plv]|e]; unfold lift; simpl;
    rewrite ?Hs1, ?Hs2, ?Hp1, ?Hp2; repeat split; try done.
Qed.

Lemma sample_loop_agree (its : list (nat * Z)) :
  forall (x : Tensor) (d : gmap string Tensor) (s1 s2 : St),
    self s1 = self s2 ->
    (forall i, (i < length its * draw_size x_t)%nat ->
       noise1 (rng_pos s1 + i) = noise2 (rng_pos s2 + i)) ->
    fst (sample_loop noise1 x_t cond cps its x d s1) =
    fst (sample_loop noise2 x_t cond cps its x d s2).
Proof.
  induction its as [|[idx t] its IH]; intros x d s1 s2 Hself Hag; [reflexivity|].
  destruct (sample_step_agree x t s1 s2 Hself) as (Hres & Hself' & Hp1 & Hp2).
  { intros i Hi. apply Hag. simpl. lia. }
  cbn [sample_loop]. unfold mbind.
  destruct (sample_step noise1 x_t cond x t s1) as [r1 s1'].
  destruct (sample_step noise2 x_t cond x t s2) as [r2 s2'].
  simpl in Hres, Hself', Hp1, Hp2. subst r2.
  destruct r1 as [x'|e]; [|reflexivity].
  apply IH; [exact Hself'|].
  intros i Hi. rewrite Hp1, Hp2, <- !Nat.add_assoc. apply Hag. simpl. lia.
Qed.

End Determinism.

(** On a usable model [ensure_consts] leaves the object with the flag set
    and the schedule of its hyperparameters. *)
Lemma ensure_consts_normal (dev : Device) (s : St) :
  usable (self s) dev ->
  exists c,
    build_consts (self s) dev = Ok c /\
    ensure_consts dev s =
      (Ok tt,
       mkSt (mkDDPM (decoder (self s)) (T (self s)) (beta_1 (self s))
               (beta_2 (self s)) (var_type (self s)) true (Some c))
            (decoder_calls s) (randn_calls s) (rng_pos s)).
Proof.
  intros (c & Hc & Hflag). exists c. split; [exact Hc|]. unfold ensure_consts.
  destruct (setup_consts (self s)) eqn:Hf.
  - specialize (Hflag eq_refl). destruct s as [[] ? ? ?]. simpl in *. by subst.
  - unfold setup_precomputed_const. by rewrite Hc.
Qed.

(** C9: two runs of [sample] on objects with the same decoder and
    hyperparameters (each with its schedule still to be built, or built
    for the device of [x_t]), with the same [x_t], conditioning, number of
    steps and checkpoints, and with generators that hand out the same
    scalars for the draws of the run, return the same result. *)
Theorem sample_deterministic (noise1 noise2 : nat -> R) (x_t : Tensor)
    (cond : option Tensor) (n_steps : option Z) (cps : PyInts) (s1 s2 : St) :
  usable (self s1) (device x_t) -> usable (self s2) (device x_t) ->
  decoder (self s1) = decoder (self s2) ->
  T (self s1) = T (self s2) ->
  beta_1 (self s1) = beta_1 (self s2) ->
  beta_2 (self s1) = beta_2 (self s2) ->
  var_type (self s1) = var_type (self s2) ->
  (forall i,
     (i < Z.to_nat (steps_of (self s1) n_steps) * draw_size x_t)%nat ->
     noise1 (rng_pos s1 + i)%nat = noise2 (rng_pos s2 + i)%nat) ->
  fst (sample noise1 x_t cond n_steps cps s1) =
  fst (sample noise2 x_t cond n_steps cps s2).
Proof.
  intros Hu1 Hu2 Hdec HT Hb1 Hb2 Hvt Hag.
  destruct (ensure_consts_normal _ _ Hu1) as (c1 & Hc1 & He1).
  destruct (ensure_consts_normal _ _ Hu2) as (c2 & Hc2 & He2).
  assert (c1 = c2) as <-.
  { unfold build_consts in Hc1, Hc2.
    rewrite HT, Hb1, Hb2, Hvt, Hc2 in Hc1. by injection Hc1. }
  unfold sample, mbind, get_self. rewrite He1, He2.
  cbn [self T]. rewrite <- Hdec, <- HT, <- Hb1, <- Hb2, <- Hvt.
  apply sample_loop_agree; [reflexivity|].
  intros i Hi. apply Hag.
  unfold enumerate in Hi. rewrite length_zip, length_seq, Nat.min_id in Hi.
  rewrite length_reversed_range in Hi. exact Hi.
Qed.

(** C9 for a fresh object and one whose schedule is already built, with
    two generators that agree on the four scalars of the run only. *)
Lemma sample_deterministic_witness :
  fst (sample (fun _ => 0) ex_x None (Some 2%Z) (PyList []) ex_state) =
  fst (sample (fun i => if (i <? 7)%nat then 0 else 1) ex_x None (Some 2%Z) (PyList [])
         (mkSt (mkDDPM (decoder ex_model) (T ex_model) (beta_1 ex_model)
                  (beta_2 ex_model) (var_type ex_model) true
                  (match build_consts ex_model Cpu with
                   | Ok c => Some c
                   | Raise _ => None
                   end))
               5 0 3)).
Proof.
  apply (sample_deterministic (fun _ => 0)
           (fun i => if (i <? 7)%nat then 0 else 1) ex_x None (Some 2%Z) (PyList [])
           ex_state).
  - eexists. split; [reflexivity | discriminate].
  - eexists. split; [reflexivity | reflexivity].
  - reflexivity.
  - reflexivity.
  - reflexivity.
  - reflexivity.
  - reflexivity.
  - intros i Hi. simpl in Hi.
    destruct i as [|[|[|[|i]]]]; try reflexivity. unfold draw_size in Hi. simpl in Hi. lia.
Defined.

(** ** The life of the schedule *)

Lemma sample_step_self (noise : nat -> R) (x_t : Tensor) (cond : option Tensor)
    (x : Tensor) (t : Z) (s : St) :
  self (snd (sample_step noise x_t cond x t s)) = self s.
Proof.
  unfold sample_step, mbind. unfold randn_like at 1.
  match goal with
  | |- context [get_posterior_mean_covariance x t true cond ?a] =>
      destruct (get_posterior_state x t true cond a) as [Hs _];
      destruct (get_posterior_mean_covariance x t true cond a) as [g b]
  end.
  simpl in Hs. destruct g as [[[pm pv] plv]|e]; [|exact Hs].
  unfold lift. by destruct (langevin_step _ _ _ _ _).
Qed.

Lemma sample_loop_self (noise : nat -> R) (x_t : Tensor) (cond : option Tensor)
    (cps : PyInts) (its : list (nat * Z)) :
  forall (x : Tensor) (d : gmap string Tensor) (s : St),
    self (snd (sample_loop noise x_t cond cps its x d s)) = self s.
Proof.
  induction its as [|[idx t] its IH]; intros x d s; [reflexivity|].
  cbn [sample_loop]. unfold mbind.
  pose proof (sample_step_self noise x_t cond x t s) as Hs.
  destruct (sample_step noise x_t cond x t s) as [[x'|e] s']; simpl in Hs;
    [|exact Hs].
  by rewrite IH.
Qed.

(** After [ensure_consts] neither [sample] nor [forward] assigns to the
    object. *)
Lemma sample_self (noise : nat -> R) (x_t : Tensor) (cond : option Tensor)
    (n_steps : option Z) (cps : PyInts) (s : St) :
  self (snd (sample noise x_t cond n_steps cps s)) =
  self (snd (ensure_consts (device x_t) s)).
Proof.
  unfold sample, mbind, get_self.
  destruct (ensure_consts (device x_t) s) as [[[]|e] s0]; [|reflexivity].
  apply sample_loop_self.
Qed.

Lemma forward_self (x eps : Tensor) (t : IdxTensor) (low_res : option Tensor)
    (s : St) :
  self (snd (forward x eps t low_res s)) = self (snd (ensure_consts (device x) s)).
Proof.
  unfold forward, mbind, lift, call_decoder.
  destruct (ensure_consts (device x) s) as [[[]|e] s0]; [|reflexivity].
  by destruct (compute_noisy_input (self s0) x eps t).
Qed.

(** C8 as stated fails: after a first call on the CPU, a call with tensors
    on another device finds the flag set, keeps the schedule of the CPU
    and raises, since the tables and the timesteps are on two devices. *)
Lemma schedule_not_rebuilt :
  exists c,
    consts (self (snd (forward (mkTensor (Cuda 0) [2%nat] [[1; 2]])
                         (mkTensor (Cuda 0) [2%nat] [[3; 4]])
                         (mkIdx (Cuda 0) [1%Z]) None
                         (snd (forward ex_x ex_eps (mkIdx Cpu [1%Z]) None ex_state)))))
      = Some c /\
    cdev c = Cpu /\
    fst (forward (mkTensor (Cuda 0) [2%nat] [[1; 2]])
           (mkTensor (Cuda 0) [2%nat] [[3; 4]])
           (mkIdx (Cuda 0) [1%Z]) None
           (snd (forward ex_x ex_eps (mkIdx Cpu [1%Z]) None ex_state)))
      = Raise RuntimeError.
Proof.
  eexists. split; [reflexivity|]. split; reflexivity.
Qed.

(** C8, as the code has it: the first call of [forward] or [sample], on an
    object whose flag is not set, builds the schedule for the device of
    that call's input and sets the flag; once the flag is set, no call of
    [forward] or [sample] changes the object, whatever the device of its
    input: the schedule is never rebuilt. *)
Theorem schedule_built_once (noise : nat -> R) (x eps : Tensor) (t : IdxTensor)
    (low_res : option Tensor) (x_t : Tensor) (cond : option Tensor)
    (n_steps : option Z) (cps : PyInts) (s : St) :
  (forall c, setup_consts (self s) = false ->
     build_consts (self s) (device x) = Ok c ->
     consts (self (snd (forward x eps t low_res s))) = Some c /\
     cdev c = device x /\
     setup_consts (self (snd (forward x eps t low_res s))) = true) /\
  (forall c, setup_consts (self s) = false ->
     build_consts (self s) (device x_t) = Ok c ->
     consts (self (snd (sample noise x_t cond n_steps cps s))) = Some c /\
     cdev c = device x_t /\
     setup_consts (self (snd (sample noise x_t cond n_steps cps s))) = true) /\
  (setup_consts (self s) = true ->
     self (snd (forward x eps t low_res s)) = self s /\
     self (snd (sample noise x_t cond n_steps cps s)) = self s).
Proof.
  assert (forall dev c, setup_consts (self s) = false ->
            build_consts (self s) dev = Ok c ->
            consts (self (snd (ensure_consts dev s))) = Some c /\
            cdev c = dev /\
            setup_consts (self (snd (ensure_consts dev s))) = true) as Hfirst.
  { intros dev c Hf Hc. unfold ensure_consts, setup_precomputed_const.
    rewrite Hf, Hc. simpl. repeat split.
    by destruct (build_consts_inv _ _ _ Hc) as (bs & pv1 & sel & _ & _ & _ & ->). }
  split; [|split].
  - intros c Hf Hc. rewrite forward_self. by apply Hfirst.
  - intros c Hf Hc. rewrite sample_self. by apply Hfirst.
  - intros Hf. rewrite forward_self, sample_self.
    by rewrite !ensure_consts_cached.
Qed.

(** C8 on the example model: the first call builds the schedule on the
    CPU. *)
Lemma schedule_built_once_witness :
  exists c,
    consts (self (snd (forward ex_x ex_eps (mkIdx Cpu [1%Z]) None ex_state))) = Some c /\
    cdev c = device ex_x /\
    setup_consts (self (snd (forward ex_x ex_eps (mkIdx Cpu [1%Z]) None ex_state)))
      = true.
Proof.
  eexists.
  apply (schedule_built_once (fun _ => 0) ex_x ex_eps (mkIdx Cpu [1%Z]) None
           ex_x None None (PyList []) ex_state); reflexivity.
Defined.

(** * Further properties of the schedule *)

(** Each running product is the previous one times the next factor. *)
Lemma cumprod_from_step (l : list R) :
  forall (acc : R) (i : nat) (a p q : R),
    l !! i = Some a ->
    (acc :: cumprod_from acc l) !! i = Some q ->
    cumprod_from acc l !! i = Some p ->
    p = q * a.
Proof.
  induction l as [|a0 l IH]; intros acc i a p q Ha Hq Hp; [done|].
  destruct i as [|i]; simpl in *.
  - by simplify_eq.
  - by eapply (IH (acc * a0) i).
Qed.

Lemma shifted_of_lookup (bs : list R) (i : nat) :
  (i < length bs)%nat -> shifted_of bs !! i = (1 :: alpha_bar_of bs) !! i.
Proof.
  intros Hi. unfold shifted_of. destruct i as [|i]; [reflexivity|]. simpl.
  apply lookup_take_lt. rewrite length_alpha_bar_of. lia.
Qed.

(** The entries of a schedule at one index, in terms of the beta [b] and
    of the shifted cumulative product [q] at that index. *)
Lemma schedule_at (bs : list R) (i : nat) (b : R) :
  bs !! i = Some b ->
  exists q,
    shifted_of bs !! i = Some q /\
    alpha_bar_of bs !! i = Some (q * (1 - b)) /\
    post_variance_of bs !! i = Some (b * (1 - q) / (1 - q * (1 - b))) /\
    (i = 0%nat -> q = 1) /\
    (Forall (fun v => 0 <= v < 1) bs -> 0 < q <= 1) /\
    (Forall (fun v => 0 < v < 1) bs -> i <> 0%nat -> q < 1).
Proof.
  intros Hb. pose proof (lookup_lt_Some _ _ _ Hb) as Hi.
  destruct (lookup_lt_is_Some_2 (alpha_bar_of bs) i) as [p Hp];
    [by rewrite length_alpha_bar_of|].
  destruct (lookup_lt_is_Some_2 (shifted_of bs) i) as [q Hq].
  { rewrite length_shifted_of; [done | by intros ->]. }
  assert (p = q * (1 - b)) as ->.
  { rewrite shifted_of_lookup in Hq by done. unfold alpha_bar_of in Hp, Hq.
    rewrite cumprod_cumprod_from in Hp, Hq.
    eapply (cumprod_from_step (alphas_of bs) 1 i); [|exact Hq | exact Hp].
    unfold alphas_of. by rewrite list_lookup_fmap, Hb. }
  exists q. split; [exact Hq|]. split; [exact Hp|]. split; [|split; [|split]].
  - unfold post_variance_of. rewrite !lookup_zip_with, !list_lookup_fmap, Hb, Hq, Hp.
    reflexivity.
  - intros ->. unfold shifted_of in Hq. simpl in Hq. by simplify_eq.
  - intros Hr. rewrite shifted_of_lookup in Hq by done.
    destruct i as [|i]; simpl in Hq; [simplify_eq; lra|].
    pose proof (alpha_bar_of_range bs Hr) as Hab.
    rewrite Forall_lookup in Hab. exact (Hab _ _ Hq).
  - intros Hr Hne. rewrite shifted_of_lookup in Hq by done.
    destruct i as [|i]; [done|]. simpl in Hq.
    unfold alpha_bar_of in Hq. rewrite cumprod_cumprod_from in Hq.
    assert (Forall (fun a => 0 < a < 1) (alphas_of bs)) as Hal.
    { unfold alphas_of. apply Forall_fmap. eapply Forall_impl; [exact Hr|].
      simpl. intros; lra. }
    pose proof (cumprod_from_bound_strict (alphas_of bs) 1 Rlt_0_1 Hal) as Hbd.
    rewrite Forall_lookup in Hbd. specialize (Hbd _ _ Hq). simpl in Hbd. lra.
Qed.

Lemma consts_lookup_betas (m : DDPM) (dev : Device) (c : Consts) (i : nat) :
  build_consts m dev = Ok c -> (Z.of_nat i < T m)%Z ->
  exists bs pv1 sel b,
    linspace (beta_1 m) (beta_2 m) (T m) = Ok bs /\
    c = consts_from dev bs pv1 sel /\
    select_variance (bs, map ln (pv1 :: drop 1 bs))
      (post_variance_of bs, map ln (pv1 :: drop 1 (post_variance_of bs)))
      (var_type m) = Ok sel /\
    post_variance_of bs !! 1%nat = Some pv1 /\
    bs !! i = Some b.
Proof.
  intros Hc Hi.
  destruct (build_consts_inv _ _ _ Hc) as (bs & pv1 & sel & Hbs & Hpv1 & Hsel & ->).
  pose proof (linspace_length _ _ _ _ Hbs) as Hlen.
  destruct (lookup_lt_is_Some_2 bs i) as [b Hb]; [lia|].
  by exists bs, pv1, sel, b.
Qed.

Lemma lookup_Some_lt_T (m : DDPM) (dev : Device) (c : Consts) (l : list R)
    (i : nat) (v : R) :
  build_consts m dev = Ok c -> l ∈ tables c -> l !! i = Some v ->
  (Z.of_nat i < T m)%Z.
Proof.
  intros Hc Hl Hv. pose proof (tables_length _ _ _ Hc) as Hlen.
  rewrite Forall_forall in Hlen. specialize (Hlen _ Hl).
  apply lookup_lt_Some in Hv. lia.
Qed.

(** X1: in every schedule that is built, [alpha_bar[i]] is
    [alpha_bar_shifted[i] * alphas[i]], and [alpha_bar_shifted] is
    [alpha_bar] moved one place to the right behind a leading 1. *)
Theorem alpha_bar_recurrence (m : DDPM) (dev : Device) (c : Consts) :
  build_consts m dev = Ok c ->
  (forall i p q a,
     alpha_bar c !! i = Some p -> alpha_bar_shifted c !! i = Some q ->
     alphas c !! i = Some a -> p = q * a) /\
  (forall i q, alpha_bar_shifted c !! S i = Some q -> alpha_bar c !! i = Some q) /\
  alpha_bar_shifted c !! 0%nat = Some 1.
Proof.
  intros Hc. split; [|split].
  - intros i p q a Hp Hq Ha.
    assert (Z.of_nat i < T m)%Z as Hi
      by (eapply lookup_Some_lt_T; [exact Hc | | exact Hp];
          unfold tables; repeat constructor).
    destruct (consts_lookup_betas _ _ _ _ Hc Hi)
      as (bs & pv1 & sel & b & _ & -> & _ & _ & Hb).
    simpl in Hp, Hq, Ha.
    destruct (schedule_at bs i b Hb) as (q' & Hq' & Hp' & _).
    unfold alphas_of in Ha. rewrite list_lookup_fmap, Hb in Ha. simpl in Ha.
    by simplify_eq.
  - intros i q Hq.
    destruct (build_consts_inv _ _ _ Hc) as (bs & pv1 & sel & _ & _ & _ & ->).
    simpl in Hq |- *. unfold shifted_of in Hq. simpl in Hq.
    apply lookup_take_Some in Hq. tauto.
  - by destruct (build_consts_inv _ _ _ Hc) as (bs & pv1 & sel & _ & _ & _ & ->).
Qed.

(** X1 on the example model, at index 1. *)
Lemma alpha_bar_recurrence_witness :
  exists c,
    build_consts ex_model Cpu = Ok c /\
    (forall i p q a,
       alpha_bar c !! i = Some p -> alpha_bar_shifted c !! i = Some q ->
       alphas c !! i = Some a -> p = q * a) /\
    (forall i q, alpha_bar_shifted c !! S i = Some q -> alpha_bar c !! i = Some q) /\
    alpha_bar_shifted c !! 0%nat = Some 1.
Proof.
  eexists. split; [reflexivity|].
  apply (alpha_bar_recurrence ex_model Cpu). reflexivity.
Defined.

(** X2: the forward process keeps unit variance: on a schedule with betas
    in [0,1), the squares of [sqrt_alpha_bar[i]] and of
    [minus_sqrt_alpha_bar[i]] add up to 1. *)
Theorem forward_coefficients_unit (m : DDPM) (dev : Device) (c : Consts)
    (i : nat) (u v : R) :
  0 <= beta_1 m < 1 -> 0 <= beta_2 m < 1 ->
  build_consts m dev = Ok c ->
  sqrt_alpha_bar c !! i = Some u -> minus_sqrt_alpha_bar c !! i = Some v ->
  u * u + v * v = 1.
Proof.
  intros Hb1 Hb2 Hc Hu Hv.
  destruct (build_consts_inv _ _ _ Hc) as (bs & pv1 & sel & Hbs & _ & _ & ->).
  simpl in Hu, Hv.
  apply list_lookup_fmap_Some in Hu as (a & -> & Ha).
  apply list_lookup_fmap_Some in Hv as (a' & -> & Ha').
  assert (a' = a) as -> by congruence.
  pose proof (alpha_bar_of_range bs (linspace_range _ _ _ _ Hb1 Hb2 Hbs)) as Hr.
  rewrite Forall_lookup in Hr. specialize (Hr _ _ Ha). simpl in Hr.
  rewrite !sqrt_sqrt by lra. lra.
Qed.

(** X2 on the example model, at index 1. *)
Lemma forward_coefficients_unit_witness :
  exists c u v,
    build_consts ex_model Cpu = Ok c /\
    sqrt_alpha_bar c !! 1%nat = Some u /\
    minus_sqrt_alpha_bar c !! 1%nat = Some v /\
    u * u + v * v = 1.
Proof.
  eexists _, _, _. split; [reflexivity|]. split; [reflexivity|].
  split; [reflexivity|].
  eapply (forward_coefficients_unit ex_model Cpu _ 1%nat);
    [simpl; lra | simpl; lra | reflexivity | reflexivity | reflexivity].
Defined.

Lemma post_variance_at_bounds (b q : R) :
  0 < b < 1 -> 0 < q <= 1 ->
  0 <= b * (1 - q) / (1 - q * (1 - b)) <= b /\
  (q < 1 -> 0 < b * (1 - q) / (1 - q * (1 - b))).
Proof.
  intros Hb Hq.
  assert (0 < 1 - q * (1 - b)) as HD by nra.
  assert (0 < / (1 - q * (1 - b))) as HI by (by apply Rinv_0_lt_compat).
  unfold Rdiv. split; [split|].
  - apply Rmult_le_pos; [nra | lra].
  - apply (Rmult_le_reg_r (1 - q * (1 - b))); [done|].
    rewrite Rmult_assoc, Rinv_l by lra. nra.
  - intros Hq1. apply Rmult_lt_0_compat; [nra | done].
Qed.

(** Over the reals the posterior variance is positive from index 1 on. *)
Lemma post_variance_range (m : DDPM) (dev : Device) (c : Consts)
    (i : nat) (v b : R) :
  0 < beta_1 m < 1 -> 0 < beta_2 m < 1 ->
  build_consts m dev = Ok c ->
  post_variance c !! i = Some v -> betas c !! i = Some b ->
  i <> 0%nat -> 0 < v.
Proof.
  intros Hb1 Hb2 Hc Hv Hb Hne.
  destruct (build_consts_inv _ _ _ Hc) as (bs & pv1 & sel & Hbs & _ & _ & ->).
  simpl in Hv, Hb.
  pose proof (linspace_range_strict _ _ _ _ Hb1 Hb2 Hbs) as Hr.
  assert (Forall (fun v => 0 <= v < 1) bs) as Hr'
    by (eapply Forall_impl; [exact Hr|]; simpl; intros; lra).
  destruct (schedule_at bs i b Hb) as (q & _ & _ & Hpv & Hq0 & Hq & Hq1).
  rewrite Hpv in Hv. injection Hv as <-.
  rewrite Forall_lookup in Hr. pose proof (Hr _ _ Hb) as Hbr. simpl in Hbr.
  destruct (post_variance_at_bounds b q Hbr (Hq Hr')) as [_ Hpos].
  apply Hpos. apply Hq1; [|done]. by apply Forall_lookup.
Qed.

Lemma clipped_log_lookup (l : list R) (i : nat) (v : R) :
  map ln (drop 1 l) !! i = Some v <->
  exists w, l !! S i = Some w /\ v = ln w.
Proof.
  rewrite list_lookup_fmap_Some, lookup_drop. simpl. split.
  - intros (w & -> & Hw). eauto.
  - intros (w & Hw & ->). eauto.
Qed.

(** From index 1 on the selected log-variance is the logarithm of the
    selected variance. *)
Lemma log_variance_exp (m : DDPM) (dev : Device) (c : Consts) (i : nat) (l v : R) :
  0 < beta_1 m < 1 -> 0 < beta_2 m < 1 ->
  build_consts m dev = Ok c ->
  i <> 0%nat ->
  p_log_variance c !! i = Some l -> p_variance c !! i = Some v ->
  exp l = v.
Proof.
  intros Hb1 Hb2 Hc Hne Hl Hv. revert i l v Hne Hl Hv.
  assert (forall i v, i <> 0%nat -> post_variance c !! i = Some v -> 0 < v) as Hpos.
  { intros i v Hne Hv.
    assert (Z.of_nat i < T m)%Z as Hi
      by (eapply lookup_Some_lt_T; [exact Hc | | exact Hv];
          unfold tables; repeat constructor).
    destruct (consts_lookup_betas _ _ _ _ Hc Hi)
      as (bs & pv1 & sel & b & _ & Heq & _ & _ & Hb).
    assert (betas c !! i = Some b) as Hb' by (by rewrite Heq).
    by apply (post_variance_range m dev c i v b Hb1 Hb2 Hc Hv Hb'). }
  assert (forall i b, betas c !! i = Some b -> 0 < b) as Hbpos.
  { intros i b Hb.
    destruct (build_consts_inv _ _ _ Hc) as (bs & pv1 & sel & Hbs & _ & _ & ->).
    pose proof (linspace_range_strict _ _ _ _ Hb1 Hb2 Hbs) as Hr.
    rewrite Forall_lookup in Hr. apply (Hr _ _ Hb). }
  destruct (build_consts_inv _ _ _ Hc) as (bs & pv1 & sel & Hbs & Hpv1 & Hsel & Heq).
  intros [|i] l v Hne Hl Hv; [done|].
  apply select_variance_inv in Hsel as [[_ ->] | [_ ->]]; subst c;
    simpl in Hl, Hv, Hpos, Hbpos;
    apply clipped_log_lookup in Hl as (w & Hw & ->).
  - assert (w = v) as -> by congruence.
    pose proof (Hbpos _ _ Hv). by apply exp_ln.
  - assert (w = v) as -> by congruence.
    pose proof (Hpos _ _ Hne Hv). by apply exp_ln.
Qed.

(** * Further properties of the noise process *)






Lemma gather_at_None (a : list R) (i : Z) :
  gather_at a i = None <-> ~ (0 <= i < Z.of_nat (length a))%Z.
Proof.
  unfold gather_at. case_bool_decide as Hi.
  - rewrite lookup_ge_None. lia.
  - split; [lia | done].
Qed.

Lemma extract_cases (a : Vec) (t : IdxTensor) (sh : list nat) :
  (forall v,
     extract a t sh = Ok v <->
     vdev a = idev t /\ vdev v = vdev a /\
     Forall2 (fun i r => (0 <= i)%Z /\ vals a !! Z.to_nat i = Some r)
             (ivals t) (vals v)) /\
  (forall e,
     extract a t sh = Raise e <->
     e = RuntimeError /\
     (vdev a <> idev t \/
      Exists (fun i => ~ (0 <= i < Z.of_nat (length (vals a)))%Z) (ivals t))).
Proof.
  unfold extract, gather. split.
  - intros v. case_bool_decide as Hd.
    + destruct (mapM (gather_at (vals a)) (ivals t)) as [vs|] eqn:Hvs.
      * apply mapM_Some in Hvs. split.
        { intros Hv. simplify_eq. simpl. repeat split; [done|].
          eapply Forall2_impl; [exact Hvs|]. simpl. intros i r.
          by rewrite gather_at_Some. }
        { intros (_ & Hdv & Hall). destruct v as [d w]. simpl in *. subst d.
          do 2 f_equal.
          assert (Forall2 (fun i r => gather_at (vals a) i = Some r) (ivals t) w)
            as Hw.
          { eapply Forall2_impl; [exact Hall|]. simpl. intros i r.
            by rewrite gather_at_Some. }
          apply mapM_Some in Hvs, Hw. congruence. }
      * split; [discriminate|]. intros (_ & _ & Hall).
        assert (mapM (gather_at (vals a)) (ivals t) = Some (vals v)) as Hw.
        { apply mapM_Some. eapply Forall2_impl; [exact Hall|]. simpl. intros i r.
          by rewrite gather_at_Some. }
        congruence.
    + split; [discriminate | tauto].
  - intros e. case_bool_decide as Hd.
    + destruct (mapM (gather_at (vals a)) (ivals t)) as [vs|] eqn:Hvs.
      * split; [discriminate|]. intros (_ & [Hne | Hex]); [done|].
        assert (mapM (gather_at (vals a)) (ivals t) = None) as Hn.
        { apply mapM_None. eapply Exists_impl; [exact Hex|]. simpl.
          intros i. by rewrite gather_at_None. }
        congruence.
      * apply mapM_None in Hvs. split.
        { intros He. simplify_eq. split; [done|]. right.
          eapply Exists_impl; [exact Hvs|]. simpl. intros i.
          by rewrite gather_at_None. }
        { by intros [-> _]. }
    + split; [intros He; simplify_eq; by split; [|left] | by intros [-> _]].
Qed.

(** X8: the errors of [compute_noisy_input] and their order: tensors of
    different shapes raise [AssertionError], whatever the object; with
    equal shapes an object without a schedule raises [AttributeError]; with
    a schedule, timesteps on another device or outside [0,T) raise
    [RuntimeError]. *)
Theorem compute_noisy_input_errors (m : DDPM) (x eps : Tensor) (t : IdxTensor) :
  (shape eps <> shape x -> compute_noisy_input m x eps t = Raise AssertionError) /\
  (shape eps = shape x -> consts m = None ->
     compute_noisy_input m x eps t = Raise AttributeError) /\
  (forall dev, shape eps = shape x -> ready m dev ->
     dev <> idev t \/ Exists (fun i => ~ (0 <= i < T m)%Z) (ivals t) ->
     compute_noisy_input m x eps t = Raise RuntimeError).
Proof.
  unfold compute_noisy_input. split; [|split].
  - intros Hne. by rewrite bool_decide_eq_false_2.
  - intros Heq Hnone. rewrite bool_decide_eq_true_2 by done.
    unfold table. by rewrite Hnone.
  - intros dev Heq Hr Hbad. rewrite bool_decide_eq_true_2 by done. simpl.
    destruct (ready_tables _ _ Hr) as (c & Hc & Hd & Hlen).
    unfold table. rewrite Hc. simpl.
    assert (Z.of_nat (length (sqrt_alpha_bar c)) = T m) as Hl.
    { rewrite Forall_forall in Hlen. apply Hlen. unfold tables. repeat constructor. }
    destruct (extract_cases (mkVec (cdev c) (sqrt_alpha_bar c)) t (shape x))
      as [_ Hraise].
    rewrite (proj2 (Hraise RuntimeError)); [reflexivity|].
    split; [done|]. simpl. rewrite Hl, Hd. exact Hbad.
Qed.

(** X8 on the example model: a timestep equal to [T] is out of range. *)
Lemma compute_noisy_input_errors_witness :
  exists m',
    setup_precomputed_const ex_model Cpu = Ok m' /\
    compute_noisy_input m' ex_x ex_eps (mkIdx Cpu [2%Z]) = Raise RuntimeError.
Proof.
  eexists. split; [reflexivity|].
  eapply compute_noisy_input_errors.
  - reflexivity.
  - eexists. split; reflexivity.
  - right. apply Exists_cons_hd. simpl. lia.
Defined.

(** * Further properties of the sampling chain *)

Section ChainShape.

Variable noise : nat -> R.
Variable x_t : Tensor.
Variable cond : option Tensor.

Hypothesis x_t_wf : wf_tensor x_t.

(** Every state of the chain has the device and the shape of [x_t]. *)
Lemma run_steps_like (ts : list Z) :
  forall (x : Tensor) (s : St) (xf : Tensor) (s' : St),
    ready (self s) (device x_t) -> decoder_contract (decoder (self s)) ->
    like x x_t -> Forall (fun t => (0 <= t < T (self s))%Z) ts ->
    run_steps noise x_t cond ts x s = (Ok xf, s') ->
    like xf x_t.
Proof.
  induction ts as [|t ts IH]; intros x s xf s' Hr Hdec Hl Hts Hrun.
  - simpl in Hrun. unfold mret in Hrun. by simplify_eq.
  - inversion Hts as [|? ? Ht Hts']; subst.
    destruct (sample_step_Ok noise x_t cond x t s Hr Hdec x_t_wf Hl Ht)
      as (x' & pm & pv & plv & _ & Hstep & Hl' & _).
    simpl in Hrun. unfold mbind in Hrun. rewrite Hstep in Hrun.
    eapply IH; [| | exact Hl' | | exact Hrun]; done.
Qed.

End ChainShape.

(** X9: for any checkpoints and any number of steps up to [T] (also none or
    a negative one), [sample] returns a mapping whose keys are exactly the
    step counts between 1 and the number of steps that are in the
    checkpoints, written as decimal strings: checkpoints outside this
    range are ignored.  The decoder is evaluated and [randn_like] is
    called once per step, the step for [t = 0] included. *)
Theorem sample_keys (noise : nat -> R) (x_t : Tensor) (cond : option Tensor)
    (n_steps : option Z) (cps : PyInts) (s : St) :
  wf_tensor x_t -> usable (self s) (device x_t) ->
  decoder_contract (decoder (self s)) ->
  (steps_of (self s) n_steps <= T (self s))%Z ->
  exists d s',
    sample noise x_t cond n_steps cps s = (Ok d, s') /\
    (forall key,
       key ∈ dom d <->
       exists k, (1 <= k <= steps_of (self s) n_steps)%Z /\
                 py_in k (checkpoints_of (self s) n_steps cps) = true /\
                 key = pretty k) /\
    decoder_calls s' = (decoder_calls s + Z.to_nat (steps_of (self s) n_steps))%nat /\
    randn_calls s' = (randn_calls s + Z.to_nat (steps_of (self s) n_steps))%nat /\
    rng_pos s' =
      (rng_pos s + Z.to_nat (steps_of (self s) n_steps) * draw_size x_t)%nat.
Proof.
  intros Hwf Hu Hdec Hn.
  destruct (sample_spec noise x_t cond Hwf n_steps cps s Hu Hdec Hn)
    as (s0 & d & xf & _ & Hsample & _ & Hdom & _).
  cbv zeta in *. rewrite length_reversed_range in *.
  exists d. eexists. split; [exact Hsample|]. split; [|by repeat split].
  intros key. rewrite Hdom, elem_of_keys_from. split.
  - intros (j & Hj & Hin & ->). exists (Z.of_nat j + 1)%Z. repeat split; [lia..|done].
  - intros (k & Hk & Hin & ->). exists (Z.to_nat (k - 1)).
    replace (Z.of_nat (Z.to_nat (k - 1)) + 1)%Z with k by lia.
    split; [lia|]. by split.
Qed.

(** X9 on the example model: of the checkpoints 0, 2 and 7 only 2 is
    written. *)
Lemma sample_keys_witness :
  exists d s',
    sample (fun _ => 0) ex_x None (Some 2%Z) (PyList [0; 2; 7]%Z) ex_state = (Ok d, s') /\
    (forall key,
       key ∈ dom d <->
       exists k, (1 <= k <= 2)%Z /\ py_in k (PyList [0; 2; 7]%Z) = true /\
                 key = pretty k) /\
    decoder_calls s' = 2%nat /\ randn_calls s' = 2%nat /\ rng_pos s' = 4%nat.
Proof.
  apply (sample_keys (fun _ => 0) ex_x None (Some 2%Z) (PyList [0; 2; 7]%Z) ex_state).
  - repeat constructor.
  - eexists. split; [reflexivity | discriminate].
  - intros x t cond Hwf. simpl. done.
  - simpl. lia.
Defined.

(** X10: every tensor in the mapping that [sample] returns is on the
    device of [x_t], has its shape and is well formed. *)
Theorem sample_values_shape (noise : nat -> R) (x_t : Tensor) (cond : option Tensor)
    (n_steps : option Z) (cps : PyInts) (s : St) :
  wf_tensor x_t -> usable (self s) (device x_t) ->
  decoder_contract (decoder (self s)) ->
  (steps_of (self s) n_steps <= T (self s))%Z ->
  exists d s',
    sample noise x_t cond n_steps cps s = (Ok d, s') /\
    (forall key v, d !! key = Some v ->
       device v = device x_t /\ shape v = shape x_t /\ wf_tensor v).
Proof.
  intros Hwf Hu Hdec Hn.
  destruct (sample_spec noise x_t cond Hwf n_steps cps s Hu Hdec Hn)
    as (s0 & d & xf & Hens & Hsample & _ & Hdom & Hhit).
  cbv zeta in *.
  destruct (ensure_consts_usable _ _ Hu)
    as (s0' & Hens' & Hr & _ & Hd0 & HT0 & _).
  rewrite Hens in Hens'. injection Hens' as <-.
  exists d. eexists. split; [exact Hsample|].
  intros key v Hv.
  assert (key ∈ dom d) as Hin by (apply elem_of_dom; eauto).
  rewrite Hdom in Hin. apply elem_of_keys_from in Hin as (j & Hj & Hpy & ->).
  destruct (Hhit j) as (xj & sj & Hrun & Hd); [lia | done |].
  rewrite Hd in Hv. injection Hv as <-.
  assert (like xj x_t) as Hl.
  { eapply (run_steps_like noise x_t cond Hwf); [exact Hr | by rewrite Hd0 | apply like_refl
                                                 | | exact Hrun].
    apply Forall_take. rewrite HT0. by apply reversed_range_bounds. }
  split; [apply Hl|]. split; [by apply like_shape | by eapply like_wf].
Qed.

(** X10 on the example model. *)
Lemma sample_values_shape_witness :
  exists d s',
    sample (fun _ => 0) ex_x None None (PyList [1; 2]%Z) ex_state = (Ok d, s') /\
    (forall key v, d !! key = Some v ->
       device v = device ex_x /\ shape v = shape ex_x /\ wf_tensor v).
Proof.
  apply (sample_values_shape (fun _ => 0) ex_x None None (PyList [1; 2]%Z) ex_state).
  - repeat constructor.
  - eexists. split; [reflexivity | discriminate].
  - intros x t cond Hwf. simpl. done.
  - simpl. lia.
Defined.

(** ** Tables read at one timestep for the whole batch *)

Lemma extract_full_replicate (a : Vec) (b : nat) (t : Z) (k : R) (sh : list nat) :
  (0 <= t)%Z -> vals a !! Z.to_nat t = Some k ->
  extract a (full b t (vdev a)) sh = Ok (mkVec (vdev a) (replicate b k)).
Proof.
  intros Ht Hk. unfold extract, gather, full. simpl.
  rewrite bool_decide_eq_true_2 by done.
  assert (mapM (gather_at (vals a)) (replicate b t) = Some (replicate b k)) as ->;
    [|done].
  apply mapM_Some. induction b as [|b IH]; simpl; constructor; [|exact IH].
  by apply gather_at_Some.
Qed.

(** ** More steps than the schedule has *)

Lemma get_posterior_out_of_range (x : Tensor) (t : Z) (clip : bool)
    (cond : option Tensor) (s : St) :
  ready (self s) (device x) -> decoder_contract (decoder (self s)) ->
  wf_tensor x -> rows x <> [] -> ~ (0 <= t < T (self s))%Z ->
  get_posterior_mean_covariance x t clip cond s =
    (Raise RuntimeError,
     mkSt (self s) (S (decoder_calls s)) (randn_calls s) (rng_pos s)).
Proof.
  intros Hr Hdec Hwf Hne Ht.
  destruct (ready_tables _ _ Hr) as (c & Hc & Hd & Hlen).
  set (t_ := full (length (rows x)) t (device x)).
  destruct (Hdec x t_ cond Hwf) as (_ & Hds & _).
  assert (Z.of_nat (length (sqrt_recip_alphas_cumprod c)) = T (self s)) as Hl.
  { rewrite Forall_forall in Hlen. apply Hlen. unfold tables. repeat constructor. }
  unfold get_posterior_mean_covariance, mbind, call_decoder, lift.
  cbn [self decoder_calls randn_calls rng_pos]. fold t_.
  unfold _predict_xstart_from_eps.
  rewrite bool_decide_eq_true_2 by done. unfold table. rewrite Hc. cbn [passert rbind].
  destruct (extract_cases (mkVec (cdev c) (sqrt_recip_alphas_cumprod c)) t_ (shape x))
    as [_ Hraise].
  rewrite (proj2 (Hraise RuntimeError)); [reflexivity|].
  split; [done|]. right. simpl. rewrite Hl.
  destruct (rows x) as [|r rs]; [done|]. simpl. by apply Exists_cons_hd.
Qed.

Lemma enumerate_reversed_range_cons (n : Z) :
  (1 <= n)%Z ->
  exists rest, enumerate (reversed_range n) = (0%nat, (n - 1)%Z) :: rest.
Proof.
  intros Hn. unfold enumerate, reversed_range.
  rewrite length_map, length_seq.
  destruct (Z.to_nat n) as [|k] eqn:Hk; [lia|]. simpl.
  rewrite Z.sub_0_r. eauto.
Qed.

(** X12: a call of [sample] for more steps than the schedule has, on a
    non-empty batch, raises [RuntimeError] in its first step, when the
    tables are read at the timestep [n_steps - 1 >= T]: one noise tensor
    has been drawn and the decoder has been evaluated once, and no mapping
    is returned. *)
Theorem sample_too_many_steps (noise : nat -> R) (x_t : Tensor) (cond : option Tensor)
    (n : Z) (cps : PyInts) (s : St) :
  wf_tensor x_t -> usable (self s) (device x_t) ->
  decoder_contract (decoder (self s)) ->
  rows x_t <> [] -> (T (self s) < n)%Z ->
  exists s',
    sample noise x_t cond (Some n) cps s = (Raise RuntimeError, s') /\
    decoder_calls s' = S (decoder_calls s) /\
    randn_calls s' = S (randn_calls s).
Proof.
  intros Hwf Hu Hdec Hne Hn.
  destruct (ensure_consts_usable _ _ Hu)
    as (s0 & Hens & Hr & _ & Hd0 & HT0 & Hdc & Hrc & _).
  pose proof (usable_T _ _ Hu) as HT.
  destruct (enumerate_reversed_range_cons n) as [rest Hrest]; [lia|].
  unfold sample, mbind, get_self. rewrite Hens, Hrest.
  cbn [sample_loop]. unfold mbind, sample_step, mbind, randn_like.
  rewrite get_posterior_out_of_range; cbn [self]; try done.
  - eexists. split; [reflexivity|]. simpl. by rewrite Hdc, Hrc.
  - by rewrite Hd0.
  - rewrite HT0. lia.
Qed.

(** X12 on the example model: three steps on a schedule of two. *)
Lemma sample_too_many_steps_witness :
  exists s',
    sample (fun _ => 0) ex_x None (Some 3%Z) (PyList []) ex_state
      = (Raise RuntimeError, s') /\
    decoder_calls s' = S (decoder_calls ex_state) /\
    randn_calls s' = S (randn_calls ex_state).
Proof.
  apply (sample_too_many_steps (fun _ => 0) ex_x None 3 (PyList []) ex_state).
  - repeat constructor.
  - eexists. split; [reflexivity | discriminate].
  - intros x t cond Hwf. simpl. done.
  - discriminate.
  - simpl. lia.
Defined.

(** * Further properties of the training path *)

Lemma mul_col_like (x : Tensor) (c : Vec) :
  vdev c = device x -> length (vals c) = length (rows x) ->
  exists y, mul_col x c = Ok y /\ like y x.
Proof.
  intros Hd Hl. rewrite mul_col_same by done. eexists. split; [reflexivity|].
  repeat split. simpl. by apply lengths_scale.
Qed.

Lemma table_gather (m : DDPM) (dev : Device) (f : Consts -> list R) (t : IdxTensor)
    (sh : list nat) :
  ready m dev -> (forall c, f c ∈ tables c) -> dev = idev t ->
  Forall (fun i => (0 <= i < T m)%Z) (ivals t) ->
  exists vs,
    (a <-r table m f; extract a t sh) = Ok (mkVec dev vs) /\
    length vs = length (ivals t).
Proof.
  intros Hr Hf Hd Ht. destruct (ready_tables _ _ Hr) as (c & Hc & Hdc & Hlen).
  unfold table. rewrite Hc. simpl. subst dev.
  rewrite Forall_forall in Hlen. specialize (Hlen _ (Hf c)).
  destruct (gather_Ok (mkVec (cdev c) (f c)) t) as (vs & Hg & _ & Hl).
  - simpl. congruence.
  - simpl. rewrite Hlen. exact Ht.
  - exists vs. split; [|exact Hl]. unfold extract. rewrite Hg. simpl. by rewrite Hdc.
Qed.

Lemma compute_noisy_input_Ok (m : DDPM) (x eps : Tensor) (t : IdxTensor) :
  ready m (device x) -> like eps x -> idev t = device x ->
  length (ivals t) = length (rows x) ->
  Forall (fun i => (0 <= i < T m)%Z) (ivals t) ->
  exists y, compute_noisy_input m x eps t = Ok y /\ like y x.
Proof.
  intros Hr Hl Hdt Hlen Ht. unfold compute_noisy_input.
  rewrite bool_decide_eq_true_2 by (by apply like_shape). simpl.
  assert (forall c, sqrt_alpha_bar c ∈ tables c) as Hf1 by in_tables.
  assert (forall c, minus_sqrt_alpha_bar c ∈ tables c) as Hf2 by in_tables.
  pose proof (table_gather m _ _ t (shape x) Hr Hf1 (eq_sym Hdt) Ht) as (v1 & H1 & Hl1).
  pose proof (table_gather m _ _ t (shape x) Hr Hf2 (eq_sym Hdt) Ht) as (v2 & H2 & Hl2).
  destruct (table m sqrt_alpha_bar) as [a1|]; [|discriminate].
  simpl in H1 |- *. rewrite H1. simpl.
  destruct (mul_col_like x (mkVec (device x) v1)) as (l & Hcl & Hll);
    [done | simpl; congruence |].
  rewrite Hcl. simpl.
  destruct (table m minus_sqrt_alpha_bar) as [a2|]; [|discriminate].
  simpl in H2 |- *. rewrite H2. simpl.
  destruct (mul_col_like eps (mkVec (device x) v2)) as (r & Hcr & Hlr).
  { simpl. symmetry. apply Hl. }
  { simpl. rewrite Hl2, Hlen. symmetry. by apply like_rows_length. }
  rewrite Hcr. simpl.
  destruct (tzip_like Rplus l r) as (w & Hw & Hlw & _).
  { eapply like_trans; [exact Hlr|]. eapply like_trans; [exact Hl|]. by apply like_sym. }
  exists w. split; [exact Hw|]. by eapply like_trans.
Qed.

(** X14: on a model whose schedule can be built (or is cached for the
    device of [x]), for well-formed [x] and [eps] of one shape on one
    device and one timestep in [0,T) per batch element, [forward] returns
    the decoder's output on the noisy input, the timesteps and the
    conditioning; the noisy input has the device and shape of [x]; the
    decoder is evaluated once and no noise is drawn. *)
Theorem forward_composes (x eps : Tensor) (t : IdxTensor) (low_res : option Tensor)
    (s : St) :
  usable (self s) (device x) ->
  wf_tensor x -> wf_tensor eps -> device eps = device x -> shape eps = shape x ->
  idev t = device x -> length (ivals t) = length (rows x) ->
  Forall (fun i => (0 <= i < T (self s))%Z) (ivals t) ->
  exists s0 x_t,
    ensure_consts (device x) s = (Ok tt, s0) /\
    compute_noisy_input (self s0) x eps t = Ok x_t /\
    device x_t = device x /\ shape x_t = shape x /\ wf_tensor x_t /\
    forward x eps t low_res s =
      (Ok (decoder (self s) x_t t low_res),
       mkSt (self s0) (S (decoder_calls s)) (randn_calls s) (rng_pos s)).
Proof.
  intros Hu Hwx Hwe Hde Hsh Hdt Hlen Ht.
  destruct (ensure_consts_usable _ _ Hu)
    as (s0 & Hens & Hr & _ & Hd0 & HT0 & Hdc & Hrc & Hpos).
  destruct (compute_noisy_input_Ok (self s0) x eps t) as (y & Hy & Hly).
  - exact Hr.
  - by apply wf_like.
  - exact Hdt.
  - exact Hlen.
  - by rewrite HT0.
  - exists s0, y. split; [exact Hens|]. split; [exact Hy|].
    split; [apply Hly|]. split; [by apply like_shape|]. split; [by eapply like_wf|].
    unfold forward, mbind, lift, call_decoder. rewrite Hens, Hy.
    by rewrite Hd0, Hdc, Hrc, Hpos.
Qed.

(** X14 on the example model. *)
Lemma forward_composes_witness :
  exists s0 x_t,
    ensure_consts (device ex_x) ex_state = (Ok tt, s0) /\
    compute_noisy_input (self s0) ex_x ex_eps (mkIdx Cpu [1%Z]) = Ok x_t /\
    device x_t = device ex_x /\ shape x_t = shape ex_x /\ wf_tensor x_t /\
    forward ex_x ex_eps (mkIdx Cpu [1%Z]) None ex_state =
      (Ok (decoder (self ex_state) x_t (mkIdx Cpu [1%Z]) None),
       mkSt (self s0) (S (decoder_calls ex_state)) (randn_calls ex_state)
            (rng_pos ex_state)).
Proof.
  apply (forward_composes ex_x ex_eps (mkIdx Cpu [1%Z]) None ex_state).
  - eexists. split; [reflexivity | discriminate].
  - repeat constructor.
  - repeat constructor.
  - reflexivity.
  - reflexivity.
  - reflexivity.
  - reflexivity.
  - repeat constructor; simpl; lia.
Defined.

(** * The noise of the last step *)

Section LastNoise.

Variables noise1 noise2 : nat -> R.
Variable x_t : Tensor.
Variable cond : option Tensor.
Variable cps : PyInts.

Hypothesis x_t_wf : wf_tensor x_t.

Lemma sample_loop_agree_but_last (ts : list Z) :
  forall (i0 : nat) (x : Tensor) (d : gmap string Tensor) (s1 s2 : St),
    self s1 = self s2 ->
    ready (self s1) (device x_t) -> decoder_contract (decoder (self s1)) ->
    like x x_t ->
    Forall (fun t => (0 <= t < T (self s1))%Z) ts ->
    last ts = Some 0%Z ->
    (forall i, (i < (length ts - 1) * draw_size x_t)%nat ->
       noise1 (rng_pos s1 + i) = noise2 (rng_pos s2 + i)) ->
    fst (sample_loop noise1 x_t cond cps (zip (seq i0 (length ts)) ts) x d s1) =
    fst (sample_loop noise2 x_t cond cps (zip (seq i0 (length ts)) ts) x d s2).
Proof.
  induction ts as [|t ts IH]; intros i0 x d s1 s2 Hself Hr Hdec Hl Hts Hlast Hag;
    [discriminate|].
  inversion Hts as [|? ? Ht Hts']; subst.
  assert (ready (self s2) (device x_t)) as Hr2 by (by rewrite <- Hself).
  assert (decoder_contract (decoder (self s2))) as Hdec2 by (by rewrite <- Hself).
  assert (0 <= t < T (self s2))%Z as Ht2 by (by rewrite <- Hself).
  destruct (sample_step_Ok noise1 x_t cond x t s1 Hr Hdec x_t_wf Hl Ht)
    as (x1 & pm1 & pv1 & plv1 & Hgp1 & Hstep1 & Hl1 & Hterm1).
  destruct (sample_step_Ok noise2 x_t cond x t s2 Hr2 Hdec2 x_t_wf Hl Ht2)
    as (x2 & pm2 & pv2 & plv2 & Hgp2 & Hstep2 & Hl2 & Hterm2).
  cbn [length seq zip zip_with sample_loop]. unfold mbind.
  rewrite Hstep1, Hstep2.
  destruct ts as [|t' ts].
  - simpl in Hlast. injection Hlast as ->.
    rewrite (get_posterior_self x 0 true cond s1 s2 Hself), Hgp2 in Hgp1.
    injection Hgp1 as <- _ _.
    rewrite Hterm1, Hterm2 by done. reflexivity.
  - assert (x1 = x2) as <-.
    { destruct (sample_step_agree noise1 noise2 x_t cond x t s1 s2 Hself) as (Hres & _).
      - intros i Hi. apply Hag. simpl. unfold draw_size in *. lia.
      - rewrite Hstep1, Hstep2 in Hres. simpl in Hres. by injection Hres. }
    apply (IH (S i0)); cbn [self rng_pos]; try done.
    intros i Hi. rewrite <- !Nat.add_assoc. apply Hag.
    simpl in Hi |- *. unfold draw_size in *. lia.
Qed.

End LastNoise.

(** X15: the scalars drawn in the last step do not reach the result: two
    runs of [sample] for at least one step, on objects with the same
    decoder and hyperparameters, whose generators agree on the draws of
    all steps but the last, return the same mapping. *)
Theorem sample_ignores_last_noise (noise1 noise2 : nat -> R) (x_t : Tensor)
    (cond : option Tensor) (n_steps : option Z) (cps : PyInts) (s1 s2 : St) :
  wf_tensor x_t ->
  usable (self s1) (device x_t) -> usable (self s2) (device x_t) ->
  decoder_contract (decoder (self s1)) ->
  decoder (self s1) = decoder (self s2) ->
  T (self s1) = T (self s2) ->
  beta_1 (self s1) = beta_1 (self s2) ->
  beta_2 (self s1) = beta_2 (self s2) ->
  var_type (self s1) = var_type (self s2) ->
  (1 <= steps_of (self s1) n_steps <= T (self s1))%Z ->
  (forall i,
     (i < (Z.to_nat (steps_of (self s1) n_steps) - 1) * draw_size x_t)%nat ->
     noise1 (rng_pos s1 + i)%nat = noise2 (rng_pos s2 + i)%nat) ->
  exists d,
    fst (sample noise1 x_t cond n_steps cps s1) = Ok d /\
    fst (sample noise2 x_t cond n_steps cps s2) = Ok d.
Proof.
  intros Hwf Hu1 Hu2 Hcontract Hdec HT Hb1 Hb2 Hvt Hn Hag.
  destruct (sample_spec noise1 x_t cond Hwf n_steps cps s1 Hu1 Hcontract)
    as (s0 & d & xf & _ & Hsample & _); [lia|].
  cbv zeta in Hsample.
  assert (fst (sample noise1 x_t cond n_steps cps s1) = Ok d) as Hfirst
    by (by rewrite Hsample).
  exists d. split; [exact Hfirst|]. rewrite <- Hfirst. symmetry.
  destruct (ensure_consts_normal _ _ Hu1) as (c1 & Hc1 & He1).
  destruct (ensure_consts_normal _ _ Hu2) as (c2 & Hc2 & He2).
  assert (c1 = c2) as <-.
  { unfold build_consts in Hc1, Hc2.
    rewrite HT, Hb1, Hb2, Hvt, Hc2 in Hc1. by injection Hc1. }
  unfold sample, mbind, get_self. rewrite He1, He2.
  cbn [self T]. rewrite <- Hdec, <- HT, <- Hb1, <- Hb2, <- Hvt.
  fold (steps_of (self s1) n_steps). unfold enumerate.
  apply sample_loop_agree_but_last; cbn [self decoder T rng_pos]; try done.
  - exists c1. by split.
  - apply reversed_range_bounds. lia.
  - apply reversed_range_last. lia.
  - intros i Hi. apply Hag. by rewrite length_reversed_range in Hi.
Qed.

(** X15 on the example model: two steps, with generators that agree on
    the first draw only. *)
Lemma sample_ignores_last_noise_witness :
  exists d,
    fst (sample (fun _ => 0) ex_x None None (PyList []) ex_state) = Ok d /\
    fst (sample (fun i => if (i <? 2)%nat then 0 else 1) ex_x None None (PyList [])
           ex_state) = Ok d.
Proof.
  apply (sample_ignores_last_noise (fun _ => 0)
           (fun i => if (i <? 2)%nat then 0 else 1) ex_x None None (PyList [])
           ex_state ex_state).
  - repeat constructor.
  - eexists. split; [reflexivity | discriminate].
  - eexists. split; [reflexivity | discriminate].
  - intros x t cond Hwf. simpl. done.
  - reflexivity.
  - reflexivity.
  - reflexivity.
  - reflexivity.
  - reflexivity.
  - simpl. lia.
  - intros i Hi. unfold draw_size in Hi. simpl in Hi.
    destruct i as [|[|i]]; [reflexivity | reflexivity | lia].
Defined.

(** * The posterior mean and the injected noise, entry by entry *)

Lemma post_mean_row (cl : R -> R) (a1 a2 k1 k2 : R) (x d : list R) :
  zip_with Rplus
    (map (Rmult k1)
       (map cl (zip_with Rminus (map (Rmult a1) x) (map (Rmult a2) d))))
    (map (Rmult k2) x)
  = zip_with (fun xv dv => k1 * cl (a1 * xv - a2 * dv) + k2 * xv) x d.
Proof.
  revert d. induction x as [|xv x IH]; intros [|dv d]; simpl; try done.
  by rewrite IH.
Qed.

Lemma post_mean_rows (cl : R -> R) (a1 a2 k1 k2 : R) (xs ds : list (list R)) :
  zip_with (zip_with Rplus)
    (zip_with (fun k r => map (Rmult k) r) (replicate (length xs) k1)
       (map (map cl)
          (zip_with (zip_with Rminus)
             (zip_with (fun k r => map (Rmult k) r) (replicate (length xs) a1) xs)
             (zip_with (fun k r => map (Rmult k) r) (replicate (length xs) a2) ds))))
    (zip_with (fun k r => map (Rmult k) r) (replicate (length xs) k2) xs)
  = zip_with (zip_with (fun xv dv => k1 * cl (a1 * xv - a2 * dv) + k2 * xv)) xs ds.
Proof.
  revert ds. induction xs as [|x xs IH]; intros [|d ds]; simpl; try done.
  by rewrite post_mean_row, IH.
Qed.

Lemma map_map_id (xs : list (list R)) : map (map (fun w : R => w)) xs = xs.
Proof.
  induction xs as [|x xs IH]; simpl; [done|]. by rewrite map_id, IH.
Qed.

(** The results of [get_posterior_mean_covariance], given the entries of
    the tables at [t]. *)
Lemma get_posterior_explicit (x : Tensor) (t : Z) (clip : bool) (cond : option Tensor)
    (s : St) (c : Consts) (a1 a2 k1 k2 v lv : R) :
  ready (self s) (device x) -> decoder_contract (decoder (self s)) ->
  wf_tensor x -> (0 <= t < T (self s))%Z ->
  consts (self s) = Some c ->
  sqrt_recip_alphas_cumprod c !! Z.to_nat t = Some a1 ->
  sqrt_recipm1_alphas_cumprod c !! Z.to_nat t = Some a2 ->
  post_coeff_1 c !! Z.to_nat t = Some k1 ->
  post_coeff_2 c !! Z.to_nat t = Some k2 ->
  p_variance c !! Z.to_nat t = Some v ->
  p_log_variance c !! Z.to_nat t = Some lv ->
  exists pm,
    get_posterior_mean_covariance x t clip cond s =
      (Ok (pm, mkVec (device x) (replicate (length (rows x)) v),
           mkVec (device x) (replicate (length (rows x)) lv)),
       mkSt (self s) (S (decoder_calls s)) (randn_calls s) (rng_pos s)) /\
    like pm x /\
    rows pm =
      zip_with
        (zip_with (fun xv dv =>
                     k1 * (if clip then Rmin (Rmax (a1 * xv - a2 * dv) (-1)) 1
                           else a1 * xv - a2 * dv)
                     + k2 * xv))
        (rows x)
        (rows (decoder (self s) x (full (length (rows x)) t (device x)) cond)).
Proof.
  intros Hr Hdec Hwf Ht Hc Ha1 Ha2 Hk1 Hk2 Hv Hlv.
  destruct (get_posterior_Ok x t clip cond s Hr Hdec Hwf Ht)
    as (pm & pv & plv & Hgp & Hlpm & _).
  assert (cdev c = device x) as Hdev.
  { destruct (ready_tables _ _ Hr) as (c' & Hc' & Hd & _). congruence. }
  set (t_ := full (length (rows x)) t (device x)) in *.
  destruct (Hdec x t_ cond Hwf) as (Hdd & Hds & Hdw).
  assert (like (decoder (self s) x t_ cond) x) as Hlp by (by apply wf_like).
  pose proof (like_rows_length _ _ Hlp) as Hlen.
  set (pred := decoder (self s) x t_ cond) in *.
  exists pm. split; [|split; [exact Hlpm|]].
  - rewrite Hgp. do 2 f_equal.
    unfold get_posterior_mean_covariance, mbind, call_decoder, lift, mret in Hgp.
    cbn [self decoder_calls randn_calls rng_pos] in Hgp. fold t_ in Hgp.
    repeat match type of Hgp with
      | context [match ?e with Ok _ => _ | Raise _ => _ end] =>
          destruct e eqn:?; try discriminate
      end.
    injection Hgp as -> <- <-.
    unfold table in *. rewrite Hc in *. cbn [rbind] in *. subst t_.
    rewrite <- Hdev in *.
    rewrite (extract_full_replicate (mkVec (cdev c) (p_variance c)) _ t v) in *
      by (simpl; first [lia | done]).
    rewrite (extract_full_replicate (mkVec (cdev c) (p_log_variance c)) _ t lv) in *
      by (simpl; first [lia | done]).
    by simplify_eq.
  - unfold get_posterior_mean_covariance, mbind, call_decoder, lift, mret in Hgp.
    cbn [self decoder_calls randn_calls rng_pos] in Hgp. fold t_ in Hgp. fold pred in Hgp.
    unfold _predict_xstart_from_eps, table in Hgp. rewrite Hc in Hgp.
    rewrite bool_decide_eq_true_2 in Hgp by (symmetry; by apply like_shape).
    cbn [passert rbind] in Hgp. subst t_. rewrite <- Hdev in Hgp.
    rewrite (extract_full_replicate (mkVec (cdev c) (sqrt_recip_alphas_cumprod c))
               _ t a1) in Hgp by (simpl; first [lia | done]).
    rewrite (extract_full_replicate (mkVec (cdev c) (sqrt_recipm1_alphas_cumprod c))
               _ t a2) in Hgp by (simpl; first [lia | done]).
    rewrite (extract_full_replicate (mkVec (cdev c) (post_coeff_1 c)) _ t k1) in Hgp
      by (simpl; first [lia | done]).
    rewrite (extract_full_replicate (mkVec (cdev c) (post_coeff_2 c)) _ t k2) in Hgp
      by (simpl; first [lia | done]).
    cbn [rbind vdev] in Hgp.
    rewrite col_mul_same in Hgp by (simpl; rewrite ?length_replicate; done).
    cbn [rbind] in Hgp.
    rewrite col_mul_same in Hgp
      by (simpl; rewrite ?length_replicate; first [by rewrite Hdev | done]).
    cbn [rbind] in Hgp. unfold tsub in Hgp. rewrite tzip_same in Hgp.
    2:{ simpl. by rewrite Hdd. }
    2:{ unfold shape. simpl. rewrite !length_zip_with, !length_replicate.
        f_equal; [lia | by injection Hds]. }
    cbn [rbind device trail rows] in Hgp.
    destruct clip.
    + unfold clamp in Hgp. cbn [device trail rows] in Hgp.
      rewrite col_mul_same in Hgp.
      2:{ done. }
      2:{ simpl. rewrite !length_map, !length_zip_with, !length_replicate. lia. }
      cbn [rbind device trail rows vals] in Hgp.
      rewrite col_mul_same in Hgp by (simpl; rewrite ?length_replicate; done).
      cbn [rbind vals] in Hgp. unfold tadd in Hgp. rewrite tzip_same in Hgp.
      2:{ done. }
      2:{ unfold shape. simpl. rewrite !length_zip_with, !length_map, !length_zip_with,
            !length_replicate. f_equal. lia. }
      cbn [rbind device trail rows] in Hgp.
      rewrite (post_mean_rows (fun w => Rmin (Rmax w (-1)) 1)) in Hgp.
      repeat match type of Hgp with
        | context [match ?e with Ok _ => _ | Raise _ => _ end] => destruct e
        end; try discriminate.
      by injection Hgp as <- _ _.
    + rewrite col_mul_same in Hgp.
      2:{ done. }
      2:{ simpl. rewrite !length_zip_with, !length_replicate. lia. }
      cbn [rbind device trail rows vals] in Hgp.
      rewrite col_mul_same in Hgp by (simpl; rewrite ?length_replicate; done).
      cbn [rbind vals] in Hgp. unfold tadd in Hgp. rewrite tzip_same in Hgp.
      2:{ done. }
      2:{ unfold shape. simpl. rewrite !length_zip_with, !length_replicate.
          f_equal. lia. }
      cbn [rbind device trail rows] in Hgp.
      pose proof (post_mean_rows (fun w => w) a1 a2 k1 k2 (rows x) (rows pred)) as Hrows.
      rewrite map_map_id in Hrows. rewrite Hrows in Hgp.
      repeat match type of Hgp with
        | context [match ?e with Ok _ => _ | Raise _ => _ end] => destruct e
        end; try discriminate.
      by injection Hgp as <- _ _.
Qed.

(** X16: the posterior mean, entry by entry: with [a1], [a2], [k1], [k2]
    the entries of [sqrt_recip_alphas_cumprod], [sqrt_recipm1_alphas_cumprod],
    [post_coeff_1] and [post_coeff_2] at [t], every entry of [post_mean] is
    [k1 * clip(a1 * x - a2 * eps) + k2 * x] for the entry [x] of the input
    and the entry [eps] of the decoder's output (without the clip when
    [clip_denoised] is false); the two other results are [p_variance[t]] and
    [p_log_variance[t]], once per batch element. *)
Theorem posterior_mean_formula (x : Tensor) (t : Z) (clip : bool)
    (cond : option Tensor) (s : St) (c : Consts) (a1 a2 k1 k2 v lv : R) :
  ready (self s) (device x) -> decoder_contract (decoder (self s)) ->
  wf_tensor x -> (0 <= t < T (self s))%Z ->
  consts (self s) = Some c ->
  sqrt_recip_alphas_cumprod c !! Z.to_nat t = Some a1 ->
  sqrt_recipm1_alphas_cumprod c !! Z.to_nat t = Some a2 ->
  post_coeff_1 c !! Z.to_nat t = Some k1 ->
  post_coeff_2 c !! Z.to_nat t = Some k2 ->
  p_variance c !! Z.to_nat t = Some v ->
  p_log_variance c !! Z.to_nat t = Some lv ->
  exists pm,
    get_posterior_mean_covariance x t clip cond s =
      (Ok (pm, mkVec (device x) (replicate (length (rows x)) v),
           mkVec (device x) (replicate (length (rows x)) lv)),
       mkSt (self s) (S (decoder_calls s)) (randn_calls s) (rng_pos s)) /\
    like pm x /\
    rows pm =
      zip_with
        (zip_with (fun xv dv =>
                     k1 * (if clip then Rmin (Rmax (a1 * xv - a2 * dv) (-1)) 1
                           else a1 * xv - a2 * dv)
                     + k2 * xv))
        (rows x)
        (rows (decoder (self s) x (full (length (rows x)) t (device x)) cond)).
Proof. apply get_posterior_explicit. Qed.

(** X16 on the example model with its schedule built, at [t = 1]. *)
Lemma posterior_mean_formula_witness :
  exists pm pv plv,
    fst (get_posterior_mean_covariance ex_x 1 true None
           (snd (ensure_consts Cpu ex_state))) = Ok (pm, pv, plv) /\
    like pm ex_x.
Proof.
  edestruct (posterior_mean_formula ex_x 1 true None (snd (ensure_consts Cpu ex_state)))
    as (pm & Hgp & Hl & _).
  - eexists. split; reflexivity.
  - intros x t cond Hwf. simpl. done.
  - repeat constructor.
  - simpl. lia.
  - reflexivity.
  - reflexivity.
  - reflexivity.
  - reflexivity.
  - reflexivity.
  - reflexivity.
  - reflexivity.
  - eexists pm, _, _. rewrite Hgp. split; [reflexivity | exact Hl].
Defined.

Lemma exp_half_sqrt (l : R) : exp (0.5 * l) = sqrt (exp l).
Proof.
  symmetry. apply sqrt_lem_1; [left; apply exp_pos | left; apply exp_pos |].
  rewrite <- exp_plus. f_equal. lra.
Qed.

Lemma noise_row (g : R) (p z : list R) :
  zip_with Rplus p (map (Rmult (1 * g)) z) = zip_with (fun pv zv => pv + g * zv) p z.
Proof.
  revert z. induction p as [|pv p IH]; intros [|zv z]; simpl; try done.
  f_equal; [ring | apply IH].
Qed.

Lemma noise_rows (f : R -> R) (lv : R) (b : nat) (ps zs : list (list R)) :
  (length ps <= b)%nat ->
  zip_with (zip_with Rplus) ps
    (zip_with (fun k r => map (Rmult k) r) (map (Rmult 1) (map f (replicate b lv))) zs)
  = zip_with (zip_with (fun pv zv => pv + f lv * zv)) ps zs.
Proof.
  revert b zs. induction ps as [|p ps IH]; intros b [|z zs] Hb; simpl; try done.
  - by destruct (map (Rmult 1) (map f (replicate b lv))).
  - destruct b as [|b]; simpl in *; [lia|].
    rewrite noise_row. f_equal. apply IH. lia.
Qed.

(** X17: the noise a step injects: on a schedule with [0 < beta_1 < 1] and
    [0 < beta_2 < 1], a pass through the loop body for a timestep
    [t >= 1] returns, entry by entry, the posterior mean plus the drawn
    noise scaled by the square root of [p_variance[t]], which is the beta
    of [t] for ["fixedlarge"] and the posterior variance of [t] for
    ["fixedsmall"]. *)
Theorem sample_step_noise (noise : nat -> R) (x_t : Tensor) (cond : option Tensor)
    (x : Tensor) (t : Z) (s : St) (c : Consts) (v : R) :
  wf_tensor x_t ->
  ready (self s) (device x_t) -> decoder_contract (decoder (self s)) ->
  like x x_t -> (1 <= t < T (self s))%Z ->
  0 < beta_1 (self s) < 1 -> 0 < beta_2 (self s) < 1 ->
  consts (self s) = Some c -> p_variance c !! Z.to_nat t = Some v ->
  exists z pm pv plv x' s1 s',
    randn_like noise x_t s = (Ok z, s1) /\
    fst (get_posterior_mean_covariance x t true cond s) = Ok (pm, pv, plv) /\
    sample_step noise x_t cond x t s = (Ok x', s') /\
    (var_type (self s) = "fixedlarge"%string -> betas c !! Z.to_nat t = Some v) /\
    (var_type (self s) = "fixedsmall"%string ->
       post_variance c !! Z.to_nat t = Some v) /\
    device x' = device x_t /\ trail x' = trail x_t /\
    rows x' = zip_with (zip_with (fun p zv => p + sqrt v * zv)) (rows pm) (rows z).
Proof.
  intros Hwf Hr Hdec Hl Ht Hb1 Hb2 Hc Hv.
  destruct Hr as (c' & Hc' & Hbuild).
  assert (c' = c) as -> by congruence.
  assert ((var_type (self s) = "fixedlarge"%string -> p_variance c = betas c) /\
          (var_type (self s) = "fixedsmall"%string -> p_variance c = post_variance c))
    as [Hlarge Hsmall].
  { destruct (build_consts_inv _ _ _ Hbuild) as (bs & pv1 & sel & _ & _ & Hsel & ->).
    apply select_variance_inv in Hsel as [[Hvt ->] | [Hvt ->]]; simpl;
      split; intros Hvt'; rewrite Hvt' in Hvt; try discriminate; done. }
  pose proof (tables_length _ _ _ Hbuild) as Hlen. rewrite Forall_forall in Hlen.
  assert (forall l, l ∈ tables c -> is_Some (l !! Z.to_nat t)) as Hsome.
  { intros l Hin. apply lookup_lt_is_Some_2. specialize (Hlen _ Hin). lia. }
  destruct (Hsome (sqrt_recip_alphas_cumprod c)) as [a1 Ha1];
    [unfold tables; repeat constructor|].
  destruct (Hsome (sqrt_recipm1_alphas_cumprod c)) as [a2 Ha2];
    [unfold tables; repeat constructor|].
  destruct (Hsome (post_coeff_1 c)) as [k1 Hk1]; [unfold tables; repeat constructor|].
  destruct (Hsome (post_coeff_2 c)) as [k2 Hk2]; [unfold tables; repeat constructor|].
  destruct (Hsome (p_log_variance c)) as [lv Hlv]; [unfold tables; repeat constructor|].
  assert (exp lv = v) as Hexpv.
  { apply (log_variance_exp _ _ _ (Z.to_nat t) lv v Hb1 Hb2 Hbuild); [lia | done | done]. }
  destruct (randn_like_like noise x_t s Hwf) as (z & Hz & Hlz).
  set (s1 := mkSt (self s) (decoder_calls s) (S (randn_calls s))
                  (rng_pos s + length (rows x_t) * numel_row x_t)) in *.
  assert (device x = device x_t) as Hdx by apply Hl.
  destruct (get_posterior_explicit x t true cond s1 c a1 a2 k1 k2 v lv)
    as (pm & Hgp & Hlpm & _); try done.
  { exists c. split; [done|]. simpl. by rewrite Hdx. }
  { by eapply like_wf. }
  { simpl. lia. }
  set (pv := mkVec (device x) (replicate (length (rows x)) v)) in *.
  set (plv := mkVec (device x) (replicate (length (rows x)) lv)) in *.
  assert (like pm x_t) as Hlpm' by (by eapply like_trans).
  pose proof (like_rows_length _ _ Hl) as HBx.
  pose proof (like_rows_length _ _ Hlpm') as HBpm.
  pose proof (like_rows_length _ _ Hlz) as HBz.
  destruct (tzip_like Rplus pm
              (mkTensor (device z) (trail z)
                 (zip_with (fun k r => map (Rmult k) r)
                    (map (Rmult 1) (map (fun w => exp (0.5 * w)) (vals plv))) (rows z))))
    as (x' & Hx' & Hlx' & Hdx' & Htx' & Hrx').
  { eapply like_trans; [|apply like_sym; exact Hlpm'].
    eapply like_trans; [|exact Hlz]. repeat split. simpl.
    apply lengths_scale. unfold plv. simpl.
    rewrite !length_map, length_replicate. lia. }
  cbn [rows] in Hrx'.
  exists z, pm, pv, plv, x', s1. eexists.
  split; [exact Hz|]. split; [|split; [|split; [|split; [|split; [|split]]]]].
  - rewrite (get_posterior_self x t true cond s s1) by done. by rewrite Hgp.
  - unfold sample_step, mbind. rewrite Hz, Hgp. unfold lift, langevin_step, nonzero_mask.
    rewrite vec_mul_scalar by (simpl; done).
    rewrite bool_decide_eq_true_2 by lia. cbn [rbind vals].
    rewrite col_mul_same.
    2:{ simpl. symmetry. apply Hlz. }
    2:{ simpl. rewrite !length_map, length_replicate. lia. }
    cbn [rbind vals]. unfold tadd. rewrite Hx'. reflexivity.
  - intros Hvt. by rewrite <- (Hlarge Hvt).
  - intros Hvt. by rewrite <- (Hsmall Hvt).
  - rewrite Hdx'. apply Hlpm'.
  - rewrite Htx'. apply Hlpm'.
  - rewrite Hrx'. unfold plv. cbn [vals].
    rewrite (noise_rows (fun w => exp (0.5 * w))) by lia.
    by rewrite exp_half_sqrt, Hexpv.
Qed.

(** X17 on the example model with its schedule built, at [t = 1]. *)
Lemma sample_step_noise_witness :
  exists c v z pm pv plv x' s1 s',
    consts (self (snd (ensure_consts Cpu ex_state))) = Some c /\
    p_variance c !! 1%nat = Some v /\
    randn_like (fun _ => 1) ex_x (snd (ensure_consts Cpu ex_state)) = (Ok z, s1) /\
    fst (get_posterior_mean_covariance ex_x 1 true None
           (snd (ensure_consts Cpu ex_state))) = Ok (pm, pv, plv) /\
    sample_step (fun _ => 1) ex_x None ex_x 1 (snd (ensure_consts Cpu ex_state))
      = (Ok x', s') /\
    betas c !! 1%nat = Some v /\
    rows x' = zip_with (zip_with (fun p zv => p + sqrt v * zv)) (rows pm) (rows z).
Proof.
  edestruct (sample_step_noise (fun _ => 1) ex_x None ex_x 1
               (snd (ensure_consts Cpu ex_state)))
    as (z & pm & pv & plv & x' & s1 & s' & Hz & Hgp & Hstep & Hv & _ & _ & _ & Hrows).
  - repeat constructor.
  - eexists. split; reflexivity.
  - intros x t cond Hwf. simpl. done.
  - apply like_refl.
  - simpl. lia.
  - simpl. lra.
  - simpl. lra.
  - reflexivity.
  - reflexivity.
  - eexists _, _, z, pm, pv, plv, x', s1, s'.
    split; [reflexivity|]. split; [reflexivity|].
    split; [exact Hz|]. split; [exact Hgp|]. split; [exact Hstep|].
    split; [exact (Hv eq_refl) | exact Hrows].
Defined.

(** * A schedule cached for another device *)

(** X19: once the flag is set, a schedule that was built for one device is
    used for every input: [forward] on tensors of another device raises
    [RuntimeError] when the first table is read, before the decoder is
    evaluated, and [sample] for at least one step raises it in its first
    step, after one evaluation of the decoder; neither call rebuilds the
    schedule. *)
Theorem stale_schedule_fails (noise : nat -> R) (x eps : Tensor) (t : IdxTensor)
    (low_res : option Tensor) (x_t : Tensor) (cond : option Tensor)
    (n_steps : option Z) (cps : PyInts) (s : St) (dev0 : Device) :
  setup_consts (self s) = true -> ready (self s) dev0 ->
  (dev0 <> device x -> shape eps = shape x -> idev t = device x ->
     forward x eps t low_res s = (Raise RuntimeError, s)) /\
  (dev0 <> device x_t -> wf_tensor x_t -> decoder_contract (decoder (self s)) ->
     (1 <= steps_of (self s) n_steps)%Z ->
     exists s',
       sample noise x_t cond n_steps cps s = (Raise RuntimeError, s') /\
       decoder_calls s' = S (decoder_calls s) /\
       self s' = self s).
Proof.
  intros Hflag Hr.
  destruct (ready_tables _ _ Hr) as (c & Hc & Hd & _).
  split.
  - intros Hne Hsh Hdt.
    unfold forward, mbind, lift. rewrite ensure_consts_cached by done.
    unfold compute_noisy_input, table.
    rewrite bool_decide_eq_true_2 by done. rewrite Hc. cbn [passert rbind].
    destruct (extract_cases (mkVec (cdev c) (sqrt_alpha_bar c)) t (shape x))
      as [_ Hraise].
    rewrite (proj2 (Hraise RuntimeError)); [reflexivity|].
    split; [done|]. left. simpl. congruence.
  - intros Hne Hwf Hdec Hn.
    destruct (enumerate_reversed_range_cons (steps_of (self s) n_steps) Hn)
      as [rest Hrest].
    unfold sample, mbind, get_self. rewrite ensure_consts_cached by done.
    fold (steps_of (self s) n_steps). rewrite Hrest.
    cbn [sample_loop]. unfold mbind, sample_step, mbind, randn_like.
    unfold get_posterior_mean_covariance, mbind, call_decoder, lift.
    cbn [self decoder_calls randn_calls rng_pos].
    set (t_ := full (length (rows x_t)) (steps_of (self s) n_steps - 1) (device x_t)).
    destruct (Hdec x_t t_ cond Hwf) as (_ & Hds & _).
    unfold _predict_xstart_from_eps, table.
    rewrite bool_decide_eq_true_2 by done. rewrite Hc. cbn [passert rbind].
    destruct (extract_cases (mkVec (cdev c) (sqrt_recip_alphas_cumprod c)) t_
                (shape x_t)) as [_ Hraise].
    rewrite (proj2 (Hraise RuntimeError)).
    + eexists. split; [reflexivity|]. by split.
    + split; [done|]. left. simpl. congruence.
Qed.

(** X19 on the example model: built on the CPU, then called with tensors
    on a GPU. *)
Lemma stale_schedule_fails_witness :
  forward (mkTensor (Cuda 0) [2%nat] [[1; 2]]) (mkTensor (Cuda 0) [2%nat] [[3; 4]])
    (mkIdx (Cuda 0) [1%Z]) None (snd (ensure_consts Cpu ex_state))
  = (Raise RuntimeError, snd (ensure_consts Cpu ex_state)).
Proof.
  eapply (stale_schedule_fails (fun _ => 0) _ _ _ None ex_x None None (PyList [])
            (snd (ensure_consts Cpu ex_state)) Cpu).
  - reflexivity.
  - eexists. split; reflexivity.
  - discriminate.
  - reflexivity.
  - reflexivity.
Defined.
